(** * Tabular Q-learning on CartPole: a shallow embedding of
      [scripts/cartpole_q_learning.py]

    The script's classes [MyEnvironment] and [Agent] and its [main] loop are
    translated function by function.

    Numbers.  A Python float is an IEEE 754 double.  The control flow of
    the script (indices, shapes, comparisons, exceptions, which entries a
    call touches) is stated over exact rationals ([Q]), and over reals
    ([R]) for the epsilon schedule [np.exp(...)]; no statement made there
    depends on how an operation rounds.  What depends on rounding (the
    value [Agent.update] stores and returns, the edges [np.linspace]
    stores) is stated in module [Binary64], over doubles with the
    operations of the processor.  Indices are [Z] where the script can
    produce a negative one and [nat] elsewhere.

    Effects.  Exceptions are the [Raise] results of a small error monad; the
    two random generators (numpy's global one and the one of the gym action
    space) are streams read at a position that is threaded through the
    calls; the simulator is an interface ([Gym]). *)

From Stdlib Require Import Strings.String Strings.Ascii.
From Stdlib Require Import Reals Qreals Lra.
From Stdlib Require Import List ZArith QArith Qabs Qround Bool Lia Lqa.
From Stdlib Require Floats.
Import ListNotations.

Local Open Scope Q_scope.

(** ** Results of fallible calls *)

Inductive exn : Set :=
| IndexError
| ValueError
| AttributeError
| AssertionError
| GymError.

(** [OutOfFuel] is not a Python exception: it marks a [while] loop that did
    not finish within the fuel given to its model. *)
Inductive result (A : Type) : Type :=
| Ok (a : A)
| Raise (e : exn)
| OutOfFuel.

Arguments Ok {A} a.
Arguments Raise {A} e.
Arguments OutOfFuel {A}.

Definition bind {A B : Type} (m : result A) (k : A -> result B) : result B :=
  match m with
  | Ok a => k a
  | Raise e => Raise e
  | OutOfFuel => OutOfFuel
  end.

Notation "x <- m ;; k" := (bind m (fun x => k))
  (at level 61, m at next level, right associativity).
Notation "' p <- m ;; k" := (bind m (fun p => k))
  (at level 61, p pattern, m at next level, right associativity).

(** Case analysis on the first call of a sequence that returned. *)
Ltac bind_inv H :=
  match type of H with
  | bind ?m _ = Ok _ =>
      let E := fresh "E" in destruct m eqn:E; cbn [bind] in H; try discriminate H
  end.

Definition lookup {A : Type} (l : list A) (i : nat) : result A :=
  match nth_error l i with
  | Some a => Ok a
  | None => Raise IndexError
  end.

(** ** numpy helpers *)

Module Np.

(** [np.linspace(start, stop, num)] with the default [endpoint=True]:
    [arange(0, num) * step + start] with [step = (stop - start) / (num - 1)],
    the last sample then overwritten by [stop]; a single sample is [start]. *)
Definition linspace (start stop : Q) (num : nat) : list Q :=
  match num with
  | O => []
  | S O => [start]
  | S div =>
      map (fun i => inject_Z (Z.of_nat i) * ((stop - start) / inject_Z (Z.of_nat div)) + start)
          (seq 0 div) ++ [stop]
  end.

(** [np.digitize(x, bins)] for increasing [bins] and [right=False]: the
    [i] with [bins[i-1] <= x < bins[i]], [0] below the first edge and
    [len(bins)] at or above the last. *)
Fixpoint digitize (x : Q) (bins : list Q) : nat :=
  match bins with
  | [] => O
  | edge :: rest => if Qle_bool edge x then S (digitize x rest) else O
  end.

(** [np.max] of a one-dimensional array; the empty array raises. *)
Definition max (row : list Q) : result Q :=
  match row with
  | [] => Raise ValueError
  | x :: rest => Ok (fold_left (fun m y => if Qlt_le_dec m y then y else m) rest x)
  end.

(** [np.argmax] of a one-dimensional array: the first position of the
    maximum (a later entry replaces the candidate only when strictly
    greater). *)
Fixpoint argmax_from (best : nat) (bestv : Q) (i : nat) (row : list Q) : nat :=
  match row with
  | [] => best
  | y :: rest =>
      if Qlt_le_dec bestv y then argmax_from i y (S i) rest
      else argmax_from best bestv (S i) rest
  end.

Definition argmax (row : list Q) : result nat :=
  match row with
  | [] => Raise ValueError
  | x :: rest => Ok (argmax_from O x 1%nat rest)
  end.

(** Python's [sum] of a list of numbers. *)
Definition sum (l : list Q) : Q := fold_left Qplus l 0.

(** [all([...])] *)
Definition all (l : list bool) : bool := forallb (fun b => b) l.

End Np.

(** ** Strings *)

(** Python's [needle in hay] on strings. *)
Fixpoint contains (needle hay : string) : bool :=
  String.prefix needle hay
  || match hay with
     | EmptyString => false
     | String _ rest => contains needle rest
     end.

(** ** N-dimensional arrays

    An [ndarray] is its shape and its entries in row-major order.  An index
    along an axis of length [d] is valid in [-d, d); a negative one counts
    from the end, anything else raises [IndexError]. *)

Record ndarray : Type := { shape : list nat; data : list Q }.

Definition size (shp : list nat) : nat := fold_right Nat.mul 1%nat shp.

Definition norm_index (d : nat) (i : Z) : result nat :=
  if ((0 <=? i) && (i <? Z.of_nat d))%Z then Ok (Z.to_nat i)
  else if ((- Z.of_nat d <=? i) && (i <? 0))%Z then Ok (Z.to_nat (i + Z.of_nat d))
  else Raise IndexError.

(** Position in the row-major entries of the first entry of the sub-array
    selected by [idx] along the leading axes of [shp], paired with the shape
    that is left. *)
Fixpoint offset (shp : list nat) (idx : list Z) : result (nat * list nat) :=
  match idx, shp with
  | [], _ => Ok (O, shp)
  | _ :: _, [] => Raise IndexError
  | i :: idx', d :: shp' =>
      k <- norm_index d i ;;
      ' (o, rest) <- offset shp' idx' ;;
      Ok ((k * size shp' + o)%nat, rest)
  end.

Fixpoint set_nth {A : Type} (l : list A) (i : nat) (v : A) : list A :=
  match l, i with
  | [], _ => []
  | _ :: t, O => v :: t
  | h :: t, S j => h :: set_nth t j v
  end.

(** The sub-array [t[idx]] selected by a tuple of indices: the shape left
    and the entries of the view, in order. *)
Definition view (t : ndarray) (idx : list Z) : result (list nat * list Q) :=
  ' (o, rest) <- offset (shape t) idx ;;
  Ok (rest, firstn (size rest) (skipn o (data t))).

(** Position in [data] of the scalar [t[idx][a]].  The script only builds a
    table with exactly one axis more than the state tuple; a selection that
    leaves no axis raises as numpy does, and one that leaves several (where
    numpy would go on with whole sub-arrays) is outside the model and
    raises too. *)
Definition cell (t : ndarray) (idx : list Z) (a : nat) : result nat :=
  ' (o, rest) <- offset (shape t) idx ;;
  match rest with
  | [n] => if (a <? n)%nat then Ok (o + a)%nat else Raise IndexError
  | _ => Raise IndexError
  end.

Definition read (t : ndarray) (idx : list Z) (a : nat) : result Q :=
  k <- cell t idx a ;; lookup (data t) k.

Definition write (t : ndarray) (idx : list Z) (a : nat) (v : Q) : result ndarray :=
  k <- cell t idx a ;;
  _ <- lookup (data t) k ;;
  Ok {| shape := shape t; data := set_nth (data t) k v |}.

Definition wf (t : ndarray) : Prop := length (data t) = size (shape t).

(** ** Random generators

    numpy's global generator yields a stream of samples of [[0, 1)]; the
    gym action space has a generator of its own.  Each is read at a
    position that advances with every draw. *)

Record Rng : Type := {
  np_stream : nat -> Q;
  np_pos : nat;
  space_stream : nat -> nat;
  space_pos : nat
}.

Module Random.

(** [np.random.uniform(low, high)]: [low + (high - low) * random_sample()]. *)
Definition uniform (low high : Q) (g : Rng) : Q * Rng :=
  (low + (high - low) * np_stream g (np_pos g),
   {| np_stream := np_stream g; np_pos := S (np_pos g);
      space_stream := space_stream g; space_pos := space_pos g |}).

(** [np.random.uniform(low, high, size=shp)]: [size shp] draws in order. *)
Definition uniform_array (low high : Q) (shp : list nat) (g : Rng) : ndarray * Rng :=
  ({| shape := shp;
      data := map (fun k => low + (high - low) * np_stream g (np_pos g + k)%nat)
                  (seq 0 (size shp)) |},
   {| np_stream := np_stream g; np_pos := (np_pos g + size shp)%nat;
      space_stream := space_stream g; space_pos := space_pos g |}).

(** [Discrete(n).sample()] *)
Definition sample (n : nat) (g : Rng) : nat * Rng :=
  ((space_stream g (space_pos g) mod n)%nat,
   {| np_stream := np_stream g; np_pos := np_pos g;
      space_stream := space_stream g; space_pos := S (space_pos g) |}).

End Random.

(** ** The simulator

    What the script asks of gym: [gym.make], [reset], [step] (the old
    four-tuple API; [info] is dropped), [action_space.n],
    [len(observation_space.high)] and the [horizon] attribute, which an
    environment may lack. *)

Class Gym (Sim : Type) : Type := {
  gym_make : string -> result Sim;
  gym_reset : Sim -> Sim * list Q;
  gym_step : Sim -> nat -> Sim * (list Q * Q * bool);
  gym_action_n : Sim -> nat;
  gym_obs_dim : Sim -> nat;
  gym_horizon : Sim -> result nat
}.

(** [self.observation]: unset, a raw observation, or the tuple of bin
    indices that [set_observation] leaves for CartPole. *)
Inductive obs : Type :=
| ObsNone
| ObsRaw (v : list Q)
| ObsIndex (t : list Z).

(** A tuple of integers is the only observation that can index the table. *)
Definition as_index (o : obs) : result (list Z) :=
  match o with
  | ObsIndex t => Ok t
  | _ => Raise IndexError
  end.

Section Environment.

Context {Sim : Type} `{Gym Sim}.

(** ** class MyEnvironment *)

Record MyEnvironment : Type := {
  environment_name : string;
  environment : Sim;
  action : option nat;
  observation : obs;
  n_bins : option nat;
  bins : option (list (list Q))
}.

Definition is_cartpole (name : string) : bool := contains "CartPole" name.

(** [MyEnvironment.__init__(environment_name)] *)
Definition MyEnvironment_init (name : string) : result MyEnvironment :=
  sim <- gym_make name ;;
  if is_cartpole name then
    Ok {| environment_name := name; environment := sim;
          action := None; observation := ObsNone;
          n_bins := Some 20%nat;
          bins := Some [Np.linspace (-4.8) 4.8 20;
                        Np.linspace (-4) 4 20;
                        Np.linspace (-0.418) 0.418 20;
                        Np.linspace (-4) 4 20] |}
  else
    Ok {| environment_name := name; environment := sim;
          action := None; observation := ObsNone;
          n_bins := None; bins := None |}.

Definition attr {A : Type} (field : option A) : result A :=
  match field with
  | Some a => Ok a
  | None => Raise AttributeError
  end.

Definition get_action_space_length (e : MyEnvironment) : nat :=
  if is_cartpole (environment_name e) then 2%nat
  else gym_action_n (environment e).

Definition get_observation_space_length (e : MyEnvironment) : result (list nat) :=
  if is_cartpole (environment_name e) then
    n <- attr (n_bins e) ;;
    Ok (repeat (n + 1)%nat (gym_obs_dim (environment e)))
  else
    h <- gym_horizon (environment e) ;;
    Ok [(h + 1)%nat].

(** The loop of [set_observation]: for each [i] in [dims],
    [np.digitize(observation[i], bins[i]) - 1]. *)
Fixpoint discretize (dims : list nat) (observation : list Q) (bs : list (list Q))
  : result (list Z) :=
  match dims with
  | [] => Ok []
  | i :: rest =>
      v <- lookup observation i ;;
      b <- lookup bs i ;;
      tl <- discretize rest observation bs ;;
      Ok ((Z.of_nat (Np.digitize v b) - 1)%Z :: tl)
  end.

Definition with_observation (e : MyEnvironment) (o : obs) : MyEnvironment :=
  {| environment_name := environment_name e; environment := environment e;
     action := action e; observation := o;
     n_bins := n_bins e; bins := bins e |}.

Definition set_observation (e : MyEnvironment) (observation : list Q)
  : result MyEnvironment :=
  if is_cartpole (environment_name e) then
    bs <- attr (bins e) ;;
    t <- discretize (seq 0 (gym_obs_dim (environment e))) observation bs ;;
    Ok (with_observation e (ObsIndex t))
  else Ok (with_observation e (ObsRaw observation)).

Definition with_sim (e : MyEnvironment) (sim : Sim) : MyEnvironment :=
  {| environment_name := environment_name e; environment := sim;
     action := action e; observation := observation e;
     n_bins := n_bins e; bins := bins e |}.

Definition set_action (e : MyEnvironment) (a : nat) : MyEnvironment :=
  {| environment_name := environment_name e; environment := environment e;
     action := Some a; observation := observation e;
     n_bins := n_bins e; bins := bins e |}.

Definition reset (e : MyEnvironment) : MyEnvironment * list Q :=
  let (sim, raw) := gym_reset (environment e) in (with_sim e sim, raw).

(** [step]: gym asserts that the stored action belongs to the action
    space, which [None] does not. *)
Definition step (e : MyEnvironment) : result (MyEnvironment * (list Q * Q * bool)) :=
  match action e with
  | None => Raise AssertionError
  | Some a =>
      let (sim, out) := gym_step (environment e) a in Ok (with_sim e sim, out)
  end.

End Environment.

Arguments MyEnvironment Sim : clear implicits.

(** ** class Agent *)

(** [np.exp(-5 * np.linspace(0, 1, n_episodes))] *)
Definition epsilon_schedule (n_episodes : nat) : list R :=
  map (fun x => exp (Q2R (-5 * x))) (Np.linspace 0 1 n_episodes).

(** [action_space] is the [n] of gym's [Discrete(n)]; the other
    observation-space object is stored and never read. *)
Record Agent : Type := {
  action_space : nat;
  action_space_length : nat;
  observation_space_length : list nat;
  n_episodes : nat;
  epsilon : list R;
  q_table : ndarray;
  learning_rate : Q;
  gamma : Q
}.

(** [Agent.__init__] *)
Definition Agent_init (action_space action_space_length : nat)
    (observation_space_length : list nat) (n_episodes : nat)
    (learning_rate gamma : Q) (g : Rng) : Agent * Rng :=
  let (table, g') :=
    Random.uniform_array (-2) 0 (observation_space_length ++ [action_space_length]) g in
  ({| action_space := action_space;
      action_space_length := action_space_length;
      observation_space_length := observation_space_length;
      n_episodes := n_episodes;
      epsilon := epsilon_schedule n_episodes;
      q_table := table;
      learning_rate := learning_rate;
      gamma := gamma |}, g').

Definition with_q_table (a : Agent) (t : ndarray) : Agent :=
  {| action_space := action_space a;
     action_space_length := action_space_length a;
     observation_space_length := observation_space_length a;
     n_episodes := n_episodes a;
     epsilon := epsilon a;
     q_table := t;
     learning_rate := learning_rate a;
     gamma := gamma a |}.

(** The greedy branch of [act]: [np.argmax(self.q_table[observation])]. *)
Definition exploit (a : Agent) (observation : list Z) : result nat :=
  ' (_, row) <- view (q_table a) observation ;;
  Np.argmax row.

(** [Agent.act(observation, episode_number)].  The agent is returned next to
    the action so that what the call does to it can be stated. *)
Definition act (a : Agent) (g : Rng) (observation : list Z) (episode_number : nat)
  : result (nat * Agent * Rng) :=
  let (u, g1) := Random.uniform 1 0 g in
  eps <- lookup (epsilon a) episode_number ;;
  if Rlt_dec (Q2R u) eps then
    let (x, g2) := Random.sample (action_space a) g1 in Ok (x, a, g2)
  else
    x <- exploit a observation ;;
    Ok (x, a, g1).

(** [Agent.update(observation, action, next_observation, reward)] *)
Definition update (a : Agent) (observation : list Z) (action : nat)
    (next_observation : list Z) (reward : Q) : result (Q * Agent) :=
  q_value <- read (q_table a) observation action ;;
  ' (_, next_row) <- view (q_table a) next_observation ;;
  next_q_value_estimate <- Np.max next_row ;;
  let temporal_difference_target := reward + gamma a * next_q_value_estimate in
  current <- read (q_table a) observation action ;;
  table <- write (q_table a) observation action
             (current + learning_rate a * (temporal_difference_target - q_value)) ;;
  updated <- read table observation action ;;
  Ok (updated - q_value, with_q_table a table).

(** ** main *)

Section Main.

Context {Sim : Type} `{Gym Sim}.

Definition running_length : nat := 5.

(** The variables of one episode's [while] loop.  [rewards] is a ghost
    field, absent from the script: the rewards of the steps taken so far,
    kept to state what the counters stand for. *)
Record Episode : Type := {
  ep_environment : MyEnvironment Sim;
  ep_agent : Agent;
  ep_rng : Rng;
  ep_observation : obs;
  episode_count : nat;
  optimal_actions : nat;
  delta_update : list Q;
  rewards : list Q
}.

(** [int(reward > 0.0)] *)
Definition success (reward : Q) : nat :=
  if Qlt_le_dec 0 reward then 1%nat else 0%nat.

(** One pass through the body of [while not done] (the display calls, which
    touch nothing the loop reads, are left out); the flag is [done]. *)
Definition loop_body (episode_index : nat) (s : Episode) : result (Episode * bool) :=
  state <- as_index (ep_observation s) ;;
  ' (a, agent, g) <- act (ep_agent s) (ep_rng s) state episode_index ;;
  ' (env, (next_raw, reward, done)) <- step (set_action (ep_environment s) a) ;;
  env <- set_observation env next_raw ;;
  next_state <- as_index (observation env) ;;
  ' (delta, agent) <- update agent state a next_state reward ;;
  Ok ({| ep_environment := env;
         ep_agent := agent;
         ep_rng := g;
         ep_observation := observation env;
         episode_count := episode_count s + 1;
         optimal_actions := optimal_actions s + success reward;
         delta_update := delta_update s ++ [delta];
         rewards := rewards s ++ [reward] |}, done).

Fixpoint while_not_done (fuel episode_index : nat) (s : Episode) : result Episode :=
  match fuel with
  | O => OutOfFuel
  | S fuel' =>
      ' (s', done) <- loop_body episode_index s ;;
      if done then Ok s' else while_not_done fuel' episode_index s'
  end.

(** What [main] carries from one episode to the next.  [reward_log] is a
    ghost field: the reward trace of every episode recorded so far. *)
Record Training : Type := {
  t_environment : MyEnvironment Sim;
  t_agent : Agent;
  t_rng : Rng;
  running_delta : list Q;
  running_accuracy : list Q;
  reward_log : list (list Q)
}.

(** [optimal_actions/episode_count] *)
Definition accuracy (s : Episode) : Q :=
  inject_Z (Z.of_nat (optimal_actions s)) / inject_Z (Z.of_nat (episode_count s)).

(** The body of [for episode_index in range(n_episodes)] up to the
    statistics. *)
Definition episode (fuel episode_index : nat) (t : Training) : result Training :=
  let (env, raw) := reset (t_environment t) in
  env <- set_observation env raw ;;
  s <- while_not_done fuel episode_index
         {| ep_environment := env;
            ep_agent := t_agent t;
            ep_rng := t_rng t;
            ep_observation := observation env;
            episode_count := 1;
            optimal_actions := 0;
            delta_update := [];
            rewards := [] |} ;;
  Ok {| t_environment := ep_environment s;
        t_agent := ep_agent s;
        t_rng := ep_rng s;
        running_delta := running_delta t ++ [Np.sum (delta_update s)];
        running_accuracy := running_accuracy t ++ [accuracy s];
        reward_log := reward_log t ++ [rewards s] |}.

(** The first disjunct of the [break] condition. *)
Definition safety_bound (n_episodes episode_index : nat) : bool :=
  (n_episodes + running_length <=? episode_index)%nat.

(** The second disjunct of the [break] condition. *)
Definition converged (episode_index : nat) (accuracies deltas : list Q) : bool :=
  Np.all (map (fun accuracy => Qeq_bool accuracy 1) accuracies)
  && Np.all (map (fun delta => if Qlt_le_dec delta 0.0001 then true else false) deltas)
  && (running_length <=? episode_index)%nat.

Definition early_stop (n_episodes episode_index : nat) (accuracies deltas : list Q) : bool :=
  safety_bound n_episodes episode_index || converged episode_index accuracies deltas.

(** Python's [range(n)] *)
Definition range (n : nat) : list nat := seq 0 n.

Fixpoint for_episodes (fuel n_episodes : nat) (indices : list nat) (t : Training)
  : result Training :=
  match indices with
  | [] => Ok t
  | episode_index :: rest =>
      t' <- episode fuel episode_index t ;;
      if early_stop n_episodes episode_index (running_accuracy t') (running_delta t')
      then Ok t'
      else for_episodes fuel n_episodes rest t'
  end.

(** [main()], with the module globals [n_episodes], [learning_rate] and
    [gamma] as arguments, [g] the generators as [np.random.seed] leaves
    them, and [fuel] the bound on the steps of one episode. *)
Definition main (n_episodes : nat) (learning_rate gamma : Q) (g : Rng) (fuel : nat)
  : result Training :=
  env <- MyEnvironment_init "CartPole-v1" ;;
  let (env, _) := reset env in
  let action_space := gym_action_n (environment env) in
  let action_space_length := get_action_space_length env in
  observation_space_length <- get_observation_space_length env ;;
  let (agent, g) :=
    Agent_init action_space action_space_length observation_space_length
               n_episodes learning_rate gamma g in
  for_episodes fuel n_episodes (range n_episodes)
    {| t_environment := env; t_agent := agent; t_rng := g;
       running_delta := []; running_accuracy := []; reward_log := [] |}.

End Main.

Arguments Episode Sim : clear implicits.
Arguments Training Sim : clear implicits.

(** ** Specification vocabulary *)

(** Every index of [idx] addresses an entry of the matching axis. *)
Definition in_range (dims : list nat) (idx : list Z) : Prop :=
  Forall2 (fun d i => (- Z.of_nat d <= i < Z.of_nat d)%Z) dims idx.

(** One call of [update] as data, and a run of such calls. *)
Record Call : Type := {
  c_observation : list Z;
  c_action : nat;
  c_next_observation : list Z;
  c_reward : Q
}.

Fixpoint updates (a : Agent) (calls : list Call) : result Agent :=
  match calls with
  | [] => Ok a
  | c :: rest =>
      ' (_, a') <- update a (c_observation c) (c_action c)
                     (c_next_observation c) (c_reward c) ;;
      updates a' rest
  end.

(** Number of rewards that [main] counts as successes. *)
Definition successes (rs : list Q) : nat :=
  fold_right (fun r n => (success r + n)%nat) 0%nat rs.

Definition ratio (n d : nat) : Q := inject_Z (Z.of_nat n) / inject_Z (Z.of_nat d).

Section Vocabulary.

Context {Sim : Type} `{Gym Sim}.

(** A reward that some step of the simulator yields. *)
Definition emitted (r : Q) : Prop :=
  exists sim a, snd (fst (snd (gym_step sim a))) = r.

(** The adapter carries the CartPole edges. *)
Definition cartpole_ready (e : MyEnvironment Sim) : Prop :=
  is_cartpole (environment_name e) = true /\
  bins e = Some [Np.linspace (-4.8) 4.8 20; Np.linspace (-4) 4 20;
                 Np.linspace (-0.418) 0.418 20; Np.linspace (-4) 4 20].

(** The agent as [main] builds it for [n] episodes. *)
Definition agent_ready (n : nat) (a : Agent) : Prop :=
  wf (q_table a) /\ shape (q_table a) = [21; 21; 21; 21]%nat ++ [2%nat] /\
  epsilon a = epsilon_schedule n /\ action_space a = 2%nat.

(** What holds of the loop variables before every step of an episode. *)
Definition episode_ready (n : nat) (s : Episode Sim) : Prop :=
  cartpole_ready (ep_environment s) /\ agent_ready n (ep_agent s) /\
  exists st, ep_observation s = ObsIndex st /\ in_range [21; 21; 21; 21]%nat st.

(** What holds of [main]'s variables between episodes. *)
Definition training_ready (n : nat) (t : Training Sim) : Prop :=
  cartpole_ready (t_environment t) /\ agent_ready n (t_agent t).

(** Each recorded accuracy against the (ghost) reward trace of its
    episode: successes over steps plus one. *)
Definition recorded (fuel : nat) (t : Training Sim) : Prop :=
  Forall2 (fun rs acc =>
             (1 <= length rs <= fuel)%nat /\ Forall emitted rs /\
             acc = ratio (successes rs) (1 + length rs))
          (reward_log t) (running_accuracy t).

(** A simulator of CartPole whose episodes end: four observation
    dimensions, two actions, and a number of steps left ([left]) that every
    step not ending the episode decreases and that, after a reset, is
    below [fuel]. *)
Record Bounded (left : Sim -> nat) (fuel : nat) : Prop := {
  make_ok : exists sim, gym_make "CartPole-v1" = Ok sim;
  obs_dim_4 : forall sim, gym_obs_dim sim = 4%nat;
  action_n_2 : forall sim, gym_action_n sim = 2%nat;
  reset_len : forall sim, length (snd (gym_reset sim)) = 4%nat;
  step_len : forall sim a, length (fst (fst (snd (gym_step sim a)))) = 4%nat;
  step_decr : forall sim a,
    snd (snd (gym_step sim a)) = false ->
    (left (fst (gym_step sim a)) < left sim)%nat;
  reset_fuel : forall sim, (left (fst (gym_reset sim)) < fuel)%nat
}.

End Vocabulary.

(** The checks on a table of bin edges that the discretization bounds rest
    on: twenty edges, none above the last. *)
Definition edges_check (b : list Q) : bool :=
  (length b =? 20)%nat && forallb (fun edge => Qle_bool edge (last b 0)) b.

(** ** Concrete data for the examples *)

Module Examples.

(** A simulator whose every step yields reward 1 and ends the episode;
    its state counts the steps taken. *)
#[export] Instance one_step_gym : Gym nat := {
  gym_make name :=
    if (String.eqb name "CartPole-v1" || String.eqb name "MountainCar-v0")%bool
    then Ok 0%nat else Raise GymError;
  gym_reset sim := (sim, [0; 0; 0; 0]);
  gym_step sim _ := (S sim, ([0; 0; 0; 0], 1, true));
  gym_action_n _ := 2%nat;
  gym_obs_dim _ := 4%nat;
  gym_horizon _ := Raise AttributeError
}.

(** Generators whose every draw is 0. *)
Definition still : Rng :=
  {| np_stream := fun _ => 0; np_pos := 0;
     space_stream := fun _ => 0%nat; space_pos := 0 |}.

(** Two states, two actions: [Q[0][0] = -1.0] and [max Q[1] = -0.5]. *)
Definition small_agent : Agent :=
  {| action_space := 2;
     action_space_length := 2;
     observation_space_length := [2%nat];
     n_episodes := 2;
     epsilon := epsilon_schedule 2;
     q_table := {| shape := [2; 2]%nat; data := [-1; -3; -0.7; -0.5] |};
     learning_rate := 0.1;
     gamma := 0.95 |}.

(** One state, three actions, the two best tied. *)
Definition tied_agent : Agent :=
  {| action_space := 3;
     action_space_length := 3;
     observation_space_length := [1%nat];
     n_episodes := 2;
     epsilon := epsilon_schedule 2;
     q_table := {| shape := [1; 3]%nat; data := [-1; -0.5; -0.5] |};
     learning_rate := 0.1;
     gamma := 0.95 |}.

(** The adapter for CartPole-v1 over the one-step simulator, and [main]'s
    variables as they are before the first of ten episodes. *)
Definition cartpole_env : MyEnvironment nat :=
  {| environment_name := "CartPole-v1"; environment := 0%nat;
     action := None; observation := ObsNone;
     n_bins := Some 20%nat;
     bins := Some [Np.linspace (-4.8) 4.8 20; Np.linspace (-4) 4 20;
                   Np.linspace (-0.418) 0.418 20; Np.linspace (-4) 4 20] |}.

Definition start : Training nat :=
  {| t_environment := cartpole_env;
     t_agent := fst (Agent_init 2 2 [21; 21; 21; 21]%nat 10 0.1 0.95 still);
     t_rng := snd (Agent_init 2 2 [21; 21; 21; 21]%nat 10 0.1 0.95 still);
     running_delta := []; running_accuracy := []; reward_log := [] |}.

End Examples.

(** ** plot_statistics

    The part of [plot_statistics] that decides what is drawn: the step, the
    abscissa [np.arange(1, n_episodes, step_size)] and the two slices
    [[1:-1:step_size]], each pair handed to [Axes.plot].  Its failures are
    kept apart from [exn]. *)

Module Plot.

Inductive plot_error : Set :=
| ZeroDivisionError  (* np.arange with a step of zero *)
| SliceStepZero      (* ValueError: slice step cannot be zero *)
| ShapeMismatch.     (* ValueError of Axes.plot: x and y of different length *)

Definition outcome (A : Type) : Type := (plot_error + A)%type.

Definition and_then {A B : Type} (m : outcome A) (k : A -> outcome B) : outcome B :=
  match m with
  | inl e => inl e
  | inr a => k a
  end.

(** Python's [round] of a number: the nearest integer, a half going to the
    even neighbour. *)
Definition round (x : Q) : Z :=
  let f := Qfloor x in
  match Qcompare (x - inject_Z f) (1 # 2) with
  | Lt => f
  | Gt => (f + 1)%Z
  | Eq => if Z.even f then f else (f + 1)%Z
  end.

(** [np.arange(start, stop, step)] on integers:
    [ceil((stop - start) / step)] values from [start] on. *)
Definition arange (start stop step : Z) : outcome (list Z) :=
  if (step =? 0)%Z then inl ZeroDivisionError
  else inr (map (fun k => (start + Z.of_nat k * step)%Z)
                (seq 0 (Z.to_nat (- ((start - stop) / step))))).

(** The bounds of a slice as Python adjusts them to a sequence of length
    [len]: a negative bound counts from the end, and the result is clipped
    to [[0, len]] for a positive step and to [[-1, len - 1]] for a negative
    one. *)
Definition adjust (len step i : Z) : Z :=
  let lower := if (step <? 0)%Z then (-1)%Z else 0%Z in
  let upper := if (step <? 0)%Z then (len - 1)%Z else len in
  if (i <? 0)%Z then Z.max (i + len) lower else Z.min i upper.

(** Number of positions of the slice. *)
Definition slice_count (lo hi step : Z) : Z :=
  if (0 <? step)%Z
  then (if (lo <? hi)%Z then (hi - lo - 1) / step + 1 else 0)%Z
  else (if (hi <? lo)%Z then (lo - hi - 1) / (- step) + 1 else 0)%Z.

(** [l[start:stop:step]] *)
Definition slice {A : Type} (l : list A) (start stop step : Z) : outcome (list A) :=
  if (step =? 0)%Z then inl SliceStepZero
  else
    let len := Z.of_nat (length l) in
    let lo := adjust len step start in
    let hi := adjust len step stop in
    inr (flat_map (fun k => match nth_error l (Z.to_nat (lo + Z.of_nat k * step)) with
                            | Some a => [a]
                            | None => []
                            end)
                  (seq 0 (Z.to_nat (slice_count lo hi step)))).

(** [Axes.plot(x, y)]: the points drawn. *)
Definition plot {A B : Type} (x : list A) (y : list B) : outcome (list (A * B)) :=
  if (length x =? length y)%nat then inr (combine x y) else inl ShapeMismatch.

(** [plot_statistics(running_accuracy, running_delta)], reading the global
    [n_episodes]; the result is the points of the two panels. *)
Definition plot_statistics (n_episodes : nat) (running_accuracy running_delta : list Q)
  : outcome (list (Z * Q) * list (Z * Q)) :=
  let step_size := round (inject_Z (Z.of_nat n_episodes) / 20) in
  and_then (arange 1 (Z.of_nat n_episodes) step_size) (fun x =>
  and_then (slice running_accuracy 1 (-1) step_size) (fun accuracies =>
  and_then (plot x accuracies) (fun panel1 =>
  and_then (slice running_delta 1 (-1) step_size) (fun deltas =>
  and_then (plot x deltas) (fun panel2 =>
  inr (panel1, panel2)))))).

End Plot.

(** ** Double precision

    The arithmetic of the script in its own number format: binary64 with
    round-to-nearest-even (Rocq's primitive floats), each operation of the
    source one rounded operation, in the order of the source.  Indexing is
    that of the arrays above. *)

Module Binary64.

Import Floats.
#[local] Set Warnings "-inexact-float".
Local Open Scope float_scope.

(** An integer as a double, as numpy converts the entries of [arange] and
    a sample count; exact below [2^53]. *)
Definition of_nat (i : nat) : float := PrimFloat.of_uint63 (Uint63.of_Z (Z.of_nat i)).

(** [np.linspace(start, stop, num)] with the default [endpoint=True]:
    [step = (stop - start) / (num - 1)], the samples
    [arange(0, num) * step + start], the last one then overwritten by
    [stop]; a single sample is [start]. *)
Definition linspace (start stop : float) (num : nat) : list float :=
  match num with
  | O => []
  | S O => [start]
  | S div =>
      let step := (stop - start) / of_nat div in
      map (fun i => of_nat i * step + start) (seq 0 div) ++ [stop]
  end.

(** The edges [MyEnvironment.__init__] stores for CartPole, one list per
    dimension of the observation. *)
Definition bins : list (list float) :=
  [linspace (-4.8) 4.8 20; linspace (-4) 4 20;
   linspace (-0.418) 0.418 20; linspace (-4) 4 20].

(** [np.max] of a one-dimensional array of doubles: a NaN, once met, is the
    result; otherwise a later entry replaces the candidate when greater.
    The empty array raises. *)
Definition max (row : list float) : result float :=
  match row with
  | [] => Raise ValueError
  | x :: rest =>
      Ok (fold_left (fun m y => if PrimFloat.is_nan m then m
                                else if PrimFloat.is_nan y then y
                                else if m <? y then y else m) rest x)
  end.

Record ndarray : Type := { shape : list nat; data : list float }.

Definition wf (t : ndarray) : Prop := length (data t) = size (shape t).

Definition view (t : ndarray) (idx : list Z) : result (list nat * list float) :=
  ' (o, rest) <- offset (shape t) idx ;;
  Ok (rest, firstn (size rest) (skipn o (data t))).

(** As for the rational table: the scalar [t[idx][a]] of a table with one
    axis more than the tuple [idx]. *)
Definition cell (t : ndarray) (idx : list Z) (a : nat) : result nat :=
  ' (o, rest) <- offset (shape t) idx ;;
  match rest with
  | [n] => if (a <? n)%nat then Ok (o + a)%nat else Raise IndexError
  | _ => Raise IndexError
  end.

Definition read (t : ndarray) (idx : list Z) (a : nat) : result float :=
  k <- cell t idx a ;; lookup (data t) k.

Definition write (t : ndarray) (idx : list Z) (a : nat) (v : float) : result ndarray :=
  k <- cell t idx a ;;
  _ <- lookup (data t) k ;;
  Ok {| shape := shape t; data := set_nth (data t) k v |}.

(** The attributes of the agent that [update] reads. *)
Record Agent : Type := {
  q_table : ndarray;
  learning_rate : float;
  gamma : float
}.

Definition with_q_table (a : Agent) (t : ndarray) : Agent :=
  {| q_table := t; learning_rate := learning_rate a; gamma := gamma a |}.

(** [Agent.update(observation, action, next_observation, reward)]:
    [q_value] is read, the entry is incremented in place by
    [learning_rate * (temporal_difference_target - q_value)], and the entry
    read again minus [q_value] is returned. *)
Definition update (a : Agent) (observation : list Z) (action : nat)
    (next_observation : list Z) (reward : float) : result (float * Agent) :=
  q_value <- read (q_table a) observation action ;;
  ' (_, next_row) <- view (q_table a) next_observation ;;
  next_q_value_estimate <- max next_row ;;
  let temporal_difference_target := reward + gamma a * next_q_value_estimate in
  current <- read (q_table a) observation action ;;
  table <- write (q_table a) observation action
             (current + learning_rate a * (temporal_difference_target - q_value)) ;;
  updated <- read table observation action ;;
  Ok (updated - q_value, with_q_table a table).

(** The order of the doubles that are not NaN, as a lexicographic key on
    their sign class, exponent and mantissa: the comparison of the format
    is the comparison of keys. *)
Definition key (f : spec_float) : Z * Z * Z :=
  match f with
  | S754_zero _ => (0, 0, 0)%Z
  | S754_infinity s => (if s then (-2) else 2, 0, 0)%Z
  | S754_nan => (0, 0, 0)%Z
  | S754_finite s m e => if s then (-1, - e, Z.neg m)%Z else (1, e, Z.pos m)%Z
  end.

Definition key_le (a b : Z * Z * Z) : Prop :=
  let '(a1, a2, a3) := a in
  let '(b1, b2, b3) := b in
  (a1 < b1 \/ (a1 = b1 /\ (a2 < b2 \/ (a2 = b2 /\ a3 <= b3))))%Z.

Definition key_lt (a b : Z * Z * Z) : Prop :=
  let '(a1, a2, a3) := a in
  let '(b1, b2, b3) := b in
  (a1 < b1 \/ (a1 = b1 /\ (a2 < b2 \/ (a2 = b2 /\ a3 < b3))))%Z.

(** No entry is a NaN. *)
Definition numbers (l : list float) : Prop :=
  Forall (fun y => PrimFloat.is_nan y = false) l.

(** A property of every pair of neighbours of a list. *)
Fixpoint adjacent (P : float -> float -> Prop) (l : list float) : Prop :=
  match l with
  | x :: ((y :: _) as rest) => P x y /\ adjacent P rest
  | _ => True
  end.

(** Two states, two actions: [Q[0][0] = -1.0] and [max Q[1] = -0.5], with
    the rates [0.1] and [0.95]. *)
Definition small_agent : Agent :=
  {| q_table := {| shape := [2; 2]%nat; data := [-1; -3; -0.7; -0.5] |};
     learning_rate := 0.1;
     gamma := 0.95 |}.

End Binary64.

(** ** More specification vocabulary *)

(** Strictly increasing, by position. *)
Definition ascending (b : list Q) : Prop :=
  forall i j x y, (i < j)%nat ->
    nth_error b i = Some x -> nth_error b j = Some y -> x < y.

(** A discretized CartPole state: four indices, each in [[-1, 19]]. *)
Definition discretized (st : list Z) : Prop :=
  length st = 4%nat /\ Forall (fun i => (-1 <= i <= 19)%Z) st.

(** * Properties *)

(** ** Lists and arrays *)

Lemma Ok_inj {A : Type} (a b : A) : Ok a = Ok b -> a = b.
Proof. intro E. congruence. Qed.

Lemma pair_snd {A B : Type} (a a' : A) (b b' : B) : (a, b) = (a', b') -> b = b'.
Proof. intro E. congruence. Qed.

Lemma lookup_Ok {A : Type} (l : list A) (i : nat) (v : A) :
  lookup l i = Ok v <-> nth_error l i = Some v.
Proof.
  unfold lookup. destruct (nth_error l i); split; intro E; inversion E; reflexivity.
Qed.

Lemma lookup_lt {A : Type} (l : list A) (i : nat) :
  (i < length l)%nat -> exists v, lookup l i = Ok v.
Proof.
  intro Hi. unfold lookup. destruct (nth_error l i) eqn:E.
  - eauto.
  - apply nth_error_None in E. lia.
Qed.

Lemma set_nth_length {A : Type} (l : list A) (i : nat) (v : A) :
  length (set_nth l i v) = length l.
Proof.
  revert i. induction l as [|h t IH]; intros [|j]; simpl; auto.
Qed.

Lemma set_nth_same {A : Type} (l : list A) (i : nat) (v : A) :
  (i < length l)%nat -> nth_error (set_nth l i v) i = Some v.
Proof.
  revert i. induction l as [|h t IH]; intros [|j] Hi; simpl in *; try lia; auto.
  apply IH. lia.
Qed.

Lemma set_nth_other {A : Type} (l : list A) (i j : nat) (v : A) :
  i <> j -> nth_error (set_nth l i v) j = nth_error l j.
Proof.
  revert i j. induction l as [|h t IH]; intros [|i] [|j] Hne; simpl; auto;
    try congruence.
Qed.

Lemma size_app (xs ys : list nat) : size (xs ++ ys) = (size xs * size ys)%nat.
Proof.
  induction xs as [|x xs IH]; simpl.
  - lia.
  - fold (size (xs ++ ys)). fold (size xs). rewrite IH. lia.
Qed.

Lemma size_single (n : nat) : size [n] = n.
Proof. unfold size. simpl. lia. Qed.

Lemma norm_index_in_range (d : nat) (i : Z) :
  (- Z.of_nat d <= i < Z.of_nat d)%Z ->
  exists k, norm_index d i = Ok k /\ (k < d)%nat.
Proof.
  intros [Hlo Hhi]. unfold norm_index.
  destruct (0 <=? i)%Z eqn:E0; simpl.
  - apply Z.leb_le in E0.
    assert (E1 : (i <? Z.of_nat d)%Z = true) by (apply Z.ltb_lt; lia).
    rewrite E1. exists (Z.to_nat i). split; [reflexivity | lia].
  - apply Z.leb_gt in E0.
    assert (E1 : (- Z.of_nat d <=? i)%Z = true) by (apply Z.leb_le; lia).
    assert (E2 : (i <? 0)%Z = true) by (apply Z.ltb_lt; lia).
    rewrite E1, E2. simpl. exists (Z.to_nat (i + Z.of_nat d)). split; [reflexivity | lia].
Qed.

Lemma offset_in_range (dims : list nat) (idx : list Z) (rest : list nat) :
  in_range dims idx ->
  exists o, offset (dims ++ rest) idx = Ok (o, rest) /\
            (o + size rest <= size (dims ++ rest))%nat.
Proof.
  intro H. induction H as [|d i dims idx Hd Hrest IH].
  - exists 0%nat. split; [destruct rest; reflexivity | simpl; lia].
  - destruct (norm_index_in_range d i Hd) as [k [Ek Hk]].
    destruct IH as [o [Eo Ho]].
    exists (k * size (dims ++ rest) + o)%nat. split.
    + simpl. rewrite Ek. simpl. rewrite Eo. reflexivity.
    + simpl. fold (size (dims ++ rest)). nia.
Qed.

Lemma cell_in_range (t : ndarray) (dims : list nat) (n : nat) (idx : list Z) (a : nat) :
  shape t = dims ++ [n] -> in_range dims idx -> (a < n)%nat ->
  exists o, offset (shape t) idx = Ok (o, [n]) /\
            (o + n <= size (shape t))%nat /\
            cell t idx a = Ok (o + a)%nat.
Proof.
  intros Hs Hr Ha.
  destruct (offset_in_range dims idx [n] Hr) as [o [Eo Ho]].
  exists o. rewrite Hs. repeat split; auto.
  - rewrite size_single in Ho. exact Ho.
  - unfold cell. rewrite Hs, Eo. simpl.
    apply Nat.ltb_lt in Ha. rewrite Ha. reflexivity.
Qed.

(** The row [t[idx]] holds the entries [t[idx][a]], in order. *)
Lemma view_row (t : ndarray) (dims : list nat) (n : nat) (idx : list Z) :
  wf t -> shape t = dims ++ [n] -> in_range dims idx ->
  exists o row,
    offset (shape t) idx = Ok (o, [n]) /\
    view t idx = Ok ([n], row) /\ length row = n /\
    forall a, (a < n)%nat -> nth_error row a = nth_error (data t) (o + a).
Proof.
  intros Hwf Hs Hr.
  destruct (offset_in_range dims idx [n] Hr) as [o [Eo Ho]].
  rewrite size_single, <- Hs, <- Hwf in Ho.
  exists o, (firstn n (skipn o (data t))). repeat split.
  - rewrite Hs. exact Eo.
  - unfold view. rewrite Hs, Eo. cbn [bind]. rewrite size_single. reflexivity.
  - rewrite length_firstn, length_skipn. lia.
  - intros a Ha. rewrite nth_error_firstn, nth_error_skipn.
    apply Nat.ltb_lt in Ha. rewrite Ha. reflexivity.
Qed.

(** The entries of the row are the scalars that [read] returns. *)
Lemma read_row (t : ndarray) (dims : list nat) (n : nat) (idx : list Z) (row : list Q) :
  wf t -> shape t = dims ++ [n] -> in_range dims idx ->
  view t idx = Ok ([n], row) ->
  length row = n /\ forall k, read t idx k = lookup row k.
Proof.
  intros Hwf Hs Hr Ev.
  destruct (view_row t dims n idx Hwf Hs Hr) as [o [row' [Eo [Ev' [Hlen Hrow]]]]].
  rewrite Ev in Ev'. inversion Ev'. subst row'. split; [exact Hlen|].
  intro k. unfold read, cell. rewrite Eo. cbn [bind].
  destruct (k <? n)%nat eqn:Hk.
  - apply Nat.ltb_lt in Hk. cbn [bind]. unfold lookup. rewrite Hrow by exact Hk. reflexivity.
  - apply Nat.ltb_ge in Hk. cbn [bind]. unfold lookup.
    assert (E : nth_error row k = None) by (apply nth_error_None; lia).
    rewrite E. reflexivity.
Qed.

(** ** [np.max] and [np.argmax] *)

Lemma max_nonempty (row : list Q) :
  (0 < length row)%nat -> exists m, Np.max row = Ok m.
Proof.
  destruct row; simpl; intro Hl; [lia | eauto].
Qed.

(** The scan of [argmax]: [pre] is the part already seen, of which [best]
    is the first position that holds its maximum [bestv]. *)
Lemma argmax_from_spec (row pre : list Q) (best i : nat) (bestv : Q) :
  length pre = i -> nth_error pre best = Some bestv ->
  (forall j v, nth_error pre j = Some v -> v <= bestv) ->
  (forall j v, (j < best)%nat -> nth_error pre j = Some v -> v < bestv) ->
  let x := Np.argmax_from best bestv i row in
  exists xv, nth_error (pre ++ row) x = Some xv /\
    (forall j v, nth_error (pre ++ row) j = Some v -> v <= xv) /\
    (forall j v, (j < x)%nat -> nth_error (pre ++ row) j = Some v -> v < xv).
Proof.
  revert pre best i bestv.
  induction row as [|y rest IH]; intros pre best i bestv Hlen Hbest Hmax Hfirst; simpl.
  - rewrite app_nil_r. exists bestv. auto.
  - assert (Hb : (best < length pre)%nat)
      by (apply nth_error_Some; rewrite Hbest; discriminate).
    replace (pre ++ y :: rest) with ((pre ++ [y]) ++ rest)
      by (rewrite <- app_assoc; reflexivity).
    assert (Hsplit : forall j v, nth_error (pre ++ [y]) j = Some v ->
              ((j < i)%nat /\ nth_error pre j = Some v) \/ (j = i /\ v = y)).
    { intros j v E. destruct (Nat.lt_ge_cases j (length pre)) as [Hj | Hj].
      - rewrite nth_error_app1 in E by exact Hj. left. split; [lia | exact E].
      - rewrite nth_error_app2 in E by exact Hj.
        destruct (j - length pre)%nat eqn:D; simpl in E.
        + inversion E. right. split; [lia | reflexivity].
        + destruct n; discriminate. }
    destruct (Qlt_le_dec bestv y) as [Hlt | Hle].
    + apply IH.
      * rewrite length_app. simpl. lia.
      * rewrite nth_error_app2 by lia. replace (i - length pre)%nat with 0%nat by lia.
        reflexivity.
      * intros j v E. destruct (Hsplit j v E) as [[_ E'] | [_ ->]].
        -- specialize (Hmax j v E'). lra.
        -- lra.
      * intros j v Hj E. destruct (Hsplit j v E) as [[_ E'] | [-> _]]; [|lia].
        specialize (Hmax j v E'). lra.
    + apply IH.
      * rewrite length_app. simpl. lia.
      * rewrite nth_error_app1 by exact Hb. exact Hbest.
      * intros j v E. destruct (Hsplit j v E) as [[_ E'] | [_ ->]]; eauto.
      * intros j v Hj E. destruct (Hsplit j v E) as [[_ E'] | [-> _]]; [eauto | lia].
Qed.

Lemma argmax_spec (row : list Q) (x : nat) :
  Np.argmax row = Ok x ->
  exists xv, nth_error row x = Some xv /\
    (forall j v, nth_error row j = Some v -> v <= xv) /\
    (forall j v, (j < x)%nat -> nth_error row j = Some v -> v < xv).
Proof.
  destruct row as [|y rest]; simpl; intro E; inversion E as [Ex]; clear E.
  apply (argmax_from_spec rest [y] 0 1 y); auto.
  - intros [|[|j]] v E; simpl in E; inversion E. lra.
  - intros j v Hj. lia.
Qed.

Lemma argmax_nonempty (row : list Q) :
  (0 < length row)%nat -> exists x, Np.argmax row = Ok x.
Proof.
  destruct row; simpl; intro Hl; [lia | eauto].
Qed.

(** ** [Agent.update] *)

Lemma read_in_range (t : ndarray) (dims : list nat) (n : nat) (idx : list Z) (a : nat) :
  wf t -> shape t = dims ++ [n] -> in_range dims idx -> (a < n)%nat ->
  exists k q, cell t idx a = Ok k /\ nth_error (data t) k = Some q /\
              read t idx a = Ok q.
Proof.
  intros Hwf Hs Hr Ha.
  destruct (cell_in_range t dims n idx a Hs Hr Ha) as [o [_ [Ho Ec]]].
  destruct (lookup_lt (data t) (o + a)) as [q Eq]; [rewrite Hwf; lia|].
  exists (o + a)%nat, q. repeat split; auto.
  - apply lookup_Ok. exact Eq.
  - unfold read. rewrite Ec. exact Eq.
Qed.

Lemma write_read (t : ndarray) (idx : list Z) (a k : nat) (q v : Q) :
  cell t idx a = Ok k -> nth_error (data t) k = Some q ->
  exists t', write t idx a v = Ok t' /\ shape t' = shape t /\
             data t' = set_nth (data t) k v /\ read t' idx a = Ok v.
Proof.
  intros Ec Eq.
  exists {| shape := shape t; data := set_nth (data t) k v |}.
  assert (Hk : (k < length (data t))%nat)
    by (apply nth_error_Some; rewrite Eq; discriminate).
  repeat split.
  - unfold write. rewrite Ec. cbn [bind].
    apply lookup_Ok in Eq. rewrite Eq. reflexivity.
  - unfold read, cell in *. cbn [shape data]. rewrite Ec. cbn [bind].
    apply lookup_Ok. apply set_nth_same. exact Hk.
Qed.

(** What [update] returns and leaves behind, read off its body. *)
Lemma update_unfold (a : Agent) (s : list Z) (x : nat) (s' : list Z) (r : Q)
    (k : nat) (q m : Q) (shp : list nat) (row : list Q) :
  cell (q_table a) s x = Ok k -> nth_error (data (q_table a)) k = Some q ->
  view (q_table a) s' = Ok (shp, row) -> Np.max row = Ok m ->
  let v := q + learning_rate a * (r + gamma a * m - q) in
  update a s x s' r =
    Ok (v - q, with_q_table a {| shape := shape (q_table a);
                                 data := set_nth (data (q_table a)) k v |}).
Proof.
  intros Ec Eq Ev Em v.
  assert (Er : read (q_table a) s x = Ok q)
    by (unfold read; rewrite Ec; apply lookup_Ok; exact Eq).
  destruct (write_read (q_table a) s x k q v Ec Eq) as [t' [Ew [Hs [Hd Er']]]].
  unfold update. rewrite Er. cbn [bind]. rewrite Ev. cbn [bind]. rewrite Em. cbn [bind].
  fold v. rewrite Ew. cbn [bind]. rewrite Er'. cbn [bind].
  destruct t' as [shp' dat']. simpl in Hs, Hd. subst. reflexivity.
Qed.

(** ** [Agent.update] in double precision *)

Module Binary64Facts.

Import Floats.
Import Binary64.
#[local] Set Warnings "-inexact-float".
Local Open Scope float_scope.

(** *** The order of doubles *)

Lemma SFcompare_key (f g : spec_float) :
  f <> S754_nan -> g <> S754_nan ->
  (SFleb f g = true <-> key_le (key f) (key g)) /\
  (SFltb f g = true <-> key_lt (key f) (key g)).
Proof.
  intros Hf Hg. unfold SFleb, SFltb.
  destruct f as [sf | sf | | sf mf ef]; try congruence;
  destruct g as [sg | sg | | sg mg eg]; try congruence;
  try destruct sf; try destruct sg; cbn -[Z.compare Pos.compare_cont];
  try (split; split; intros; try discriminate; try lia; reflexivity).
  all: fold (Pos.compare mf mg);
    destruct (Z.compare_spec ef eg); destruct (Pos.compare_spec mf mg);
    cbn; split; split; intros; try discriminate; try lia; try reflexivity.
Qed.

Lemma number_spec (x : float) : PrimFloat.is_nan x = false -> Prim2SF x <> S754_nan.
Proof.
  unfold PrimFloat.is_nan. rewrite FloatAxioms.eqb_spec. intros Hx E.
  rewrite E in Hx. discriminate Hx.
Qed.

Lemma leb_key (x y : float) :
  PrimFloat.is_nan x = false -> PrimFloat.is_nan y = false ->
  ((x <=? y) = true <-> key_le (key (Prim2SF x)) (key (Prim2SF y))).
Proof.
  intros Hx Hy. rewrite leb_spec.
  apply SFcompare_key; apply number_spec; assumption.
Qed.

Lemma ltb_key (x y : float) :
  PrimFloat.is_nan x = false -> PrimFloat.is_nan y = false ->
  ((x <? y) = true <-> key_lt (key (Prim2SF x)) (key (Prim2SF y))).
Proof.
  intros Hx Hy. rewrite ltb_spec.
  apply SFcompare_key; apply number_spec; assumption.
Qed.

Lemma key_lt_le (a b c : Z * Z * Z) : key_lt a b -> key_le b c -> key_le a c.
Proof.
  destruct a as [[a1 a2] a3], b as [[b1 b2] b3], c as [[c1 c2] c3].
  unfold key_lt, key_le. lia.
Qed.

Lemma key_ge_le (a b c : Z * Z * Z) : ~ key_lt a b -> key_le a c -> key_le b c.
Proof.
  destruct a as [[a1 a2] a3], b as [[b1 b2] b3], c as [[c1 c2] c3].
  unfold key_lt, key_le. lia.
Qed.

Lemma key_le_refl (a : Z * Z * Z) : key_le a a.
Proof. destruct a as [[a1 a2] a3]. unfold key_le. lia. Qed.

(** *** [np.max] *)

Lemma fold_max_In (rest : list float) (x : float) :
  let m := fold_left (fun m y => if PrimFloat.is_nan m then m
                                 else if PrimFloat.is_nan y then y
                                 else if m <? y then y else m) rest x in
  m = x \/ In m rest.
Proof.
  revert x. induction rest as [|y rest IH]; intro x; simpl; [left; reflexivity|].
  destruct (PrimFloat.is_nan x); [|destruct (PrimFloat.is_nan y); [|destruct (x <? y)]].
  all: match goal with
       | |- context [fold_left _ _ ?z] => destruct (IH z) as [-> | Hin]; auto
       end.
Qed.

Lemma fold_max_numbers (rest : list float) (x : float) :
  PrimFloat.is_nan x = false -> numbers rest ->
  let m := fold_left (fun m y => if PrimFloat.is_nan m then m
                                 else if PrimFloat.is_nan y then y
                                 else if m <? y then y else m) rest x in
  PrimFloat.is_nan m = false /\ (x <=? m) = true /\
  forall y, In y rest -> (y <=? m) = true.
Proof.
  revert x. induction rest as [|y rest IH]; intros x Hx Hall; simpl.
  - split; [exact Hx|]. split; [|intros y []].
    apply leb_key; auto. apply key_le_refl.
  - inversion Hall as [|y' rest' Hy Hrest]; subst. rewrite Hx, Hy.
    destruct (x <? y) eqn:Hlt.
    + destruct (IH y Hy Hrest) as [Hm [Hym Hle]]. split; [exact Hm|]. split.
      * apply leb_key; auto. apply (key_lt_le _ (key (Prim2SF y))).
        -- apply ltb_key; auto.
        -- apply leb_key; auto.
      * intros z [<- | Hz]; auto.
    + destruct (IH x Hx Hrest) as [Hm [Hxm Hle]]. split; [exact Hm|]. split; [exact Hxm|].
      intros z [<- | Hz]; auto.
      apply leb_key; auto. apply (key_ge_le (key (Prim2SF x))).
      * intro Hk. apply ltb_key in Hk; auto. rewrite Hk in Hlt. discriminate Hlt.
      * apply leb_key; auto.
Qed.

(** The result of [np.max] is an entry of the row and, in a row without
    NaN, no entry is above it. *)
Lemma max_entry (row : list float) (m : float) :
  max row = Ok m ->
  In m row /\ (numbers row -> forall y, In y row -> (y <=? m) = true).
Proof.
  destruct row as [|x rest]; simpl; intro E; [discriminate E|].
  assert (Em : m = fold_left (fun m y => if PrimFloat.is_nan m then m
                                         else if PrimFloat.is_nan y then y
                                         else if m <? y then y else m) rest x)
    by congruence.
  subst m. split.
  - destruct (fold_max_In rest x) as [-> | Hin]; auto.
  - intros Hall y Hy. inversion Hall as [|x' rest' Hx Hrest]; subst.
    destruct (fold_max_numbers rest x Hx Hrest) as [_ [Hxm Hle]].
    destruct Hy as [<- | Hy]; auto.
Qed.

(** *** The table *)

Lemma cell_full (t : ndarray) (dims : list nat) (n : nat) (idx : list Z) (a : nat) :
  wf t -> shape t = dims ++ [n] -> in_range dims idx -> (a < n)%nat ->
  exists o q, offset (shape t) idx = Ok (o, [n]) /\
              cell t idx a = Ok (o + a)%nat /\
              nth_error (data t) (o + a) = Some q /\
              read t idx a = Ok q.
Proof.
  intros Hwf Hs Hr Ha.
  destruct (offset_in_range dims idx [n] Hr) as [o [Eo Ho]].
  rewrite size_single, <- Hs, <- Hwf in Ho.
  destruct (lookup_lt (data t) (o + a)) as [q Eq]; [lia|].
  assert (Ec : cell t idx a = Ok (o + a)%nat).
  { unfold cell. rewrite Hs, Eo. cbn [bind].
    apply Nat.ltb_lt in Ha. rewrite Ha. reflexivity. }
  exists o, q. split; [rewrite Hs; exact Eo|]. split; [exact Ec|].
  split; [apply lookup_Ok; exact Eq|].
  unfold read. rewrite Ec. exact Eq.
Qed.

Lemma row_full (t : ndarray) (dims : list nat) (n : nat) (idx : list Z) :
  wf t -> shape t = dims ++ [n] -> in_range dims idx ->
  exists row, view t idx = Ok ([n], row) /\ length row = n /\
              forall j, read t idx j = lookup row j.
Proof.
  intros Hwf Hs Hr.
  destruct (offset_in_range dims idx [n] Hr) as [o [Eo Ho]].
  rewrite size_single, <- Hs, <- Hwf in Ho.
  exists (firstn n (skipn o (data t))).
  assert (Hlen : length (firstn n (skipn o (data t))) = n)
    by (rewrite length_firstn, length_skipn; lia).
  split; [|split; [exact Hlen|]].
  - unfold view. rewrite Hs, Eo. cbn [bind]. rewrite size_single. reflexivity.
  - intro j. unfold read, cell. rewrite Hs, Eo. cbn [bind]. unfold lookup.
    destruct (j <? n)%nat eqn:Hj; cbn [bind].
    + rewrite nth_error_firstn, Hj, nth_error_skipn. reflexivity.
    + apply Nat.ltb_ge in Hj.
      assert (E : nth_error (firstn n (skipn o (data t))) j = None)
        by (apply nth_error_None; lia).
      rewrite E. reflexivity.
Qed.

Lemma write_then_read (t : ndarray) (idx : list Z) (a k : nat) (q v : float) :
  cell t idx a = Ok k -> nth_error (data t) k = Some q ->
  write t idx a v = Ok {| shape := shape t; data := set_nth (data t) k v |} /\
  read {| shape := shape t; data := set_nth (data t) k v |} idx a = Ok v.
Proof.
  intros Ec Eq.
  assert (Hk : (k < length (data t))%nat)
    by (apply nth_error_Some; rewrite Eq; discriminate).
  split.
  - unfold write. rewrite Ec. cbn [bind].
    apply lookup_Ok in Eq. rewrite Eq. reflexivity.
  - unfold read, cell in *. cbn [shape data]. rewrite Ec. cbn [bind].
    apply lookup_Ok. apply set_nth_same. exact Hk.
Qed.

(** C1, amended.  For in-range indices [update] returns.  It computes
    [target = reward + gamma * max Q[s']], the maximum being over the row
    of the next state, and [delta = learning_rate * (target - Q[s][a])],
    each operation rounded to a double; it stores [Q[s][a] + delta] in the
    entry [Q[s][a]], leaving every other entry as it was; and it returns the
    change of that entry, its new value minus its old one, which is a
    rounded difference and not in general the [delta] that was added.  With
    [Q[s][a] = -1.0], [reward = 1.0], [gamma = 0.95], [max Q[s'] = -0.5] and
    [learning_rate = 0.1] the delta added is [0.1525], the entry afterwards
    is [-0.8475] and the value returned is [0.15249999999999997]. *)
Theorem update_returns_change
    (a : Agent) (dims : list nat) (n : nat) (s : list Z) (x : nat) (s' : list Z)
    (r : float) :
  wf (q_table a) -> shape (q_table a) = dims ++ [n] ->
  in_range dims s -> in_range dims s' -> (x < n)%nat ->
  exists k q row m a',
    cell (q_table a) s x = Ok k /\
    read (q_table a) s x = Ok q /\
    view (q_table a) s' = Ok ([n], row) /\
    (forall j, read (q_table a) s' j = lookup row j) /\
    max row = Ok m /\ In m row /\
    (numbers row -> forall y, In y row -> (y <=? m) = true) /\
    let target := r + gamma a * m in
    let delta := learning_rate a * (target - q) in
    let q' := q + delta in
    update a s x s' r = Ok (q' - q, a') /\
    read (q_table a') s x = Ok q' /\
    shape (q_table a') = shape (q_table a) /\
    data (q_table a') = set_nth (data (q_table a)) k q' /\
    learning_rate a' = learning_rate a /\ gamma a' = gamma a /\
    (q = -1 -> r = 1 -> gamma a = 0.95 -> m = -0.5 -> learning_rate a = 0.1 ->
     delta = 0.1525 /\ q' = -0.8475 /\ q' - q = 0.15249999999999997).
Proof.
  intros Hwf Hs Hr Hr' Hx.
  destruct (cell_full _ dims n s x Hwf Hs Hr Hx) as [o [q [_ [Ec [Eq Er]]]]].
  destruct (row_full _ dims n s' Hwf Hs Hr') as [row [Ev [Hlen Hrow]]].
  assert (Em : exists m, max row = Ok m)
    by (destruct row; [simpl in Hlen; lia | simpl; eauto]).
  destruct Em as [m Em].
  destruct (max_entry row m Em) as [Hin Hmax].
  pose (v := q + learning_rate a * (r + gamma a * m - q)).
  destruct (write_then_read (q_table a) s x (o + x)%nat q v Ec Eq) as [Ew Er'].
  exists (o + x)%nat, q, row, m,
    (with_q_table a {| shape := shape (q_table a);
                       data := set_nth (data (q_table a)) (o + x) v |}).
  split; [exact Ec|]. split; [exact Er|]. split; [exact Ev|]. split; [exact Hrow|].
  split; [exact Em|]. split; [exact Hin|]. split; [exact Hmax|].
  cbv zeta. fold v. split; [|split; [exact Er'|]].
  - unfold update. rewrite Er. cbn [bind]. rewrite Ev. cbn [bind]. rewrite Em. cbn [bind].
    fold v. rewrite Ew. cbn [bind]. rewrite Er'. reflexivity.
  - split; [reflexivity|]. split; [reflexivity|]. split; [reflexivity|].
    split; [reflexivity|].
    intros Hq Hr1 Hg Hm Hl. unfold v. rewrite Hq, Hr1, Hg, Hm, Hl.
    split; [|split]; vm_compute; reflexivity.
Qed.

(** The numbers of C1 on a two-state table. *)
Lemma update_returns_change_witness :
  exists a',
    update small_agent [0%Z] 0 [1%Z] 1 = Ok (0.15249999999999997, a') /\
    read (q_table a') [0%Z] 0 = Ok (-0.8475).
Proof.
  destruct (update_returns_change small_agent [2%nat] 2 [0%Z] 0 [1%Z] 1)
    as [k [q [row [m [a' [_ [Er [Ev [_ [Em [_ [_ H]]]]]]]]]]]].
  - reflexivity.
  - reflexivity.
  - constructor; [lia | constructor].
  - constructor; [lia | constructor].
  - lia.
  - cbv zeta in H. destruct H as [Eu [Er' [_ [_ [_ [_ Hnum]]]]]].
    vm_compute in Er. apply Ok_inj in Er. subst q.
    vm_compute in Ev. apply Ok_inj in Ev. apply pair_snd in Ev. subst row.
    vm_compute in Em. apply Ok_inj in Em. subst m.
    destruct Hnum as [_ [Hq Hd]]; try reflexivity.
    exists a'. rewrite Hd in Eu. rewrite Hq in Er'. split; assumption.
Defined.

(** C1 as stated fails at its own numbers: the value returned is
    [0.15249999999999997], which is neither [0.1525] nor the delta
    [0.1 * (1.0 + 0.95 * (-0.5) - (-1.0)) = 0.1525] that was added to the
    entry. *)
Lemma update_returned_delta_counterexample :
  exists returned a',
    update small_agent [0%Z] 0 [1%Z] 1 = Ok (returned, a') /\
    read (q_table small_agent) [0%Z] 0 = Ok (-1) /\
    max [-0.7; -0.5] = Ok (-0.5) /\
    view (q_table small_agent) [1%Z] = Ok ([2%nat], [-0.7; -0.5]) /\
    learning_rate small_agent * (1 + gamma small_agent * (-0.5) - (-1)) = 0.1525 /\
    read (q_table a') [0%Z] 0 = Ok (-0.8475) /\
    returned = 0.15249999999999997 /\
    returned <> 0.1525.
Proof.
  eexists. eexists.
  split; [vm_compute; reflexivity|].
  split; [vm_compute; reflexivity|].
  split; [vm_compute; reflexivity|].
  split; [vm_compute; reflexivity|].
  split; [vm_compute; reflexivity|].
  split; [vm_compute; reflexivity|].
  split; [reflexivity|].
  intro E. apply (f_equal (fun z => PrimFloat.eqb z 0.1525)) in E.
  vm_compute in E. discriminate E.
Qed.

End Binary64Facts.

(** ** What [update] leaves alone *)

Lemma cell_shape (t t' : ndarray) (idx : list Z) (a : nat) :
  shape t' = shape t -> cell t' idx a = cell t idx a.
Proof. intro Hs. unfold cell. rewrite Hs. reflexivity. Qed.

Lemma update_frame (a a' : Agent) (s : list Z) (x : nat) (s' : list Z) (r delta : Q) :
  update a s x s' r = Ok (delta, a') ->
  exists k,
    cell (q_table a) s x = Ok k /\
    shape (q_table a') = shape (q_table a) /\
    length (data (q_table a')) = length (data (q_table a)) /\
    (forall j, j <> k ->
       nth_error (data (q_table a')) j = nth_error (data (q_table a)) j) /\
    epsilon a' = epsilon a /\ action_space a' = action_space a /\
    learning_rate a' = learning_rate a /\ gamma a' = gamma a.
Proof.
  unfold update. intro E.
  destruct (read (q_table a) s x) as [q | |] eqn:Er; cbn [bind] in E; try discriminate E.
  destruct (view (q_table a) s') as [[shp row] | |] eqn:Ev;
    cbn [bind] in E; try discriminate E.
  destruct (Np.max row) as [m | |] eqn:Em; cbn [bind] in E; try discriminate E.
  cbv zeta in E.
  destruct (write (q_table a) s x _) as [t' | |] eqn:Ew;
    cbn [bind] in E; try discriminate E.
  destruct (read t' s x) as [q' | |] eqn:Er'; cbn [bind] in E; try discriminate E.
  inversion E; subst; clear E.
  unfold write in Ew.
  destruct (cell (q_table a) s x) as [k | |] eqn:Ec; cbn [bind] in Ew; try discriminate Ew.
  destruct (lookup (data (q_table a)) k) as [q0 | |] eqn:El;
    cbn [bind] in Ew; try discriminate Ew.
  inversion Ew; subst; clear Ew.
  exists k. cbn [with_q_table q_table shape data epsilon action_space learning_rate gamma].
  repeat split; auto.
  - apply set_nth_length.
  - intros j Hj. apply set_nth_other. congruence.
Qed.

Lemma updates_frame (calls : list Call) (a a' : Agent) :
  updates a calls = Ok a' ->
  shape (q_table a') = shape (q_table a) /\
  length (data (q_table a')) = length (data (q_table a)) /\
  forall j,
    (forall c, In c calls -> cell (q_table a) (c_observation c) (c_action c) <> Ok j) ->
    nth_error (data (q_table a')) j = nth_error (data (q_table a)) j.
Proof.
  revert a. induction calls as [|c calls IH]; intros a E; simpl in E.
  - inversion E. auto.
  - bind_inv E. destruct a0 as [delta a1].
    destruct (update_frame _ _ _ _ _ _ _ E0) as [k [Ek [Hs [Hl [Hframe _]]]]].
    destruct (IH a1 E) as [Hs' [Hl' Hframe']].
    split; [congruence | split; [congruence|]].
    intros j Hj. rewrite Hframe'.
    + apply Hframe. intro Ejk. subst j. apply (Hj c); [left; reflexivity | exact Ek].
    + intros c' Hc'. rewrite (cell_shape _ _ _ _ Hs). apply Hj. right. exact Hc'.
Qed.

(** ** Construction of the agent *)

Lemma uniform_array_wf (low high : Q) (shp : list nat) (g : Rng) :
  shape (fst (Random.uniform_array low high shp g)) = shp /\
  wf (fst (Random.uniform_array low high shp g)).
Proof.
  unfold wf. simpl. rewrite length_map, length_seq. auto.
Qed.

Lemma Agent_init_table (sp n : nat) (obs_shape : list nat) (eps : nat) (lr gm : Q) (g : Rng) :
  let a := fst (Agent_init sp n obs_shape eps lr gm g) in
  shape (q_table a) = obs_shape ++ [n] /\ wf (q_table a) /\
  epsilon a = epsilon_schedule eps /\ action_space a = sp /\
  learning_rate a = lr /\ gamma a = gm.
Proof.
  unfold Agent_init.
  pose proof (uniform_array_wf (-2) 0 (obs_shape ++ [n]) g) as [Hs Hwf].
  destruct (Random.uniform_array (-2) 0 (obs_shape ++ [n]) g) as [t g'].
  simpl in *. repeat split; auto.
Qed.

Section CartPoleTable.

Context {Sim : Type} `{Gym Sim}.

Lemma init_cartpole (name : string) (e : MyEnvironment Sim) :
  is_cartpole name = true -> MyEnvironment_init name = Ok e ->
  environment_name e = name /\ n_bins e = Some 20%nat /\
  bins e = Some [Np.linspace (-4.8) 4.8 20; Np.linspace (-4) 4 20;
                 Np.linspace (-0.418) 0.418 20; Np.linspace (-4) 4 20].
Proof.
  intros Hc E. unfold MyEnvironment_init in E. bind_inv E. rewrite Hc in E.
  inversion E. auto.
Qed.

(** C8.  For CartPole (four observation dimensions) the table is created
    with shape [21,21,21,21,2], that is 21^4 * 2 entries, and a run of any
    number of [update] calls leaves the shape, the number of entries and
    every entry that no call of the run addresses as they were; for a
    single call this is every entry but [Q[state][action]]. *)
Theorem q_table_shape_invariant
    (name : string) (e : MyEnvironment Sim) (eps : nat) (lr gm : Q) (g : Rng) :
  is_cartpole name = true -> MyEnvironment_init name = Ok e ->
  gym_obs_dim (environment e) = 4%nat ->
  get_observation_space_length e = Ok [21; 21; 21; 21]%nat /\
  get_action_space_length e = 2%nat /\
  let a := fst (Agent_init (gym_action_n (environment e)) 2 [21; 21; 21; 21]%nat
                           eps lr gm g) in
  shape (q_table a) = [21; 21; 21; 21; 2]%nat /\
  Z.of_nat (length (data (q_table a))) = (21 ^ 4 * 2)%Z /\
  forall calls a',
    updates a calls = Ok a' ->
    shape (q_table a') = [21; 21; 21; 21; 2]%nat /\
    Z.of_nat (length (data (q_table a'))) = (21 ^ 4 * 2)%Z /\
    forall j,
      (forall c, In c calls -> cell (q_table a) (c_observation c) (c_action c) <> Ok j) ->
      nth_error (data (q_table a')) j = nth_error (data (q_table a)) j.
Proof.
  intros Hc Ei Hdim.
  destruct (init_cartpole name e Hc Ei) as [Hname [Hn _]].
  split; [|split].
  - unfold get_observation_space_length. rewrite Hname, Hc, Hn, Hdim. reflexivity.
  - unfold get_action_space_length. rewrite Hname, Hc. reflexivity.
  - intro a.
    destruct (Agent_init_table (gym_action_n (environment e)) 2 [21; 21; 21; 21]%nat
                eps lr gm g) as [Hs [Hwf _]].
    fold a in Hs, Hwf. change (shape (q_table a) = [21; 21; 21; 21; 2]%nat) in Hs.
    assert (Hlen : Z.of_nat (length (data (q_table a))) = (21 ^ 4 * 2)%Z).
    { unfold wf in Hwf. rewrite Hwf, Hs. vm_compute. reflexivity. }
    split; [exact Hs | split; [exact Hlen|]].
    intros calls a' Eu. destruct (updates_frame calls a a' Eu) as [Hs' [Hl' Hframe]].
    split; [congruence | split; [congruence | exact Hframe]].
Qed.

End CartPoleTable.

(** ** [np.linspace] and the epsilon schedule *)

Lemma linspace_length (a b : Q) (n : nat) : length (Np.linspace a b n) = n.
Proof.
  destruct n as [|[|m]]; try reflexivity.
  unfold Np.linspace. rewrite length_app, length_map, length_seq. simpl. lia.
Qed.

Lemma linspace_nth (a b : Q) (m i : nat) :
  nth_error (Np.linspace a b (S (S m))) i =
    if (i <? S m)%nat
    then Some (inject_Z (Z.of_nat i) * ((b - a) / inject_Z (Z.of_nat (S m))) + a)
    else if (i =? S m)%nat then Some b else None.
Proof.
  unfold Np.linspace. rewrite nth_error_app, length_map, length_seq.
  destruct (i <? S m)%nat eqn:Hi.
  - rewrite nth_error_map, nth_error_seq, Hi. reflexivity.
  - apply Nat.ltb_ge in Hi. destruct (i =? S m)%nat eqn:He.
    + apply Nat.eqb_eq in He. subst i. rewrite Nat.sub_diag. reflexivity.
    + apply Nat.eqb_neq in He. destruct (i - S m)%nat as [|[|k]] eqn:D; simpl; auto. lia.
Qed.

(** The samples of [np.linspace(0, 1, n)] before the last one: [i / (n-1)]. *)
Lemma unit_sample (m i j : nat) :
  (i <= j)%nat -> (j < S m)%nat ->
  let x k := inject_Z (Z.of_nat k) * ((1 - 0) / inject_Z (Z.of_nat (S m))) + 0 in
  0 <= x i /\ x i <= x j /\ x j < 1.
Proof.
  intros Hij Hj x. unfold x.
  set (d := inject_Z (Z.of_nat (S m))).
  set (s := (1 - 0) / d).
  assert (Hd : 0 < d) by (unfold d; change 0 with (inject_Z 0); rewrite <- Zlt_Qlt; lia).
  assert (Hsd : s * d == 1) by (unfold s; field; lra).
  assert (Hs : 0 < s) by nra.
  assert (Hi0 : 0 <= inject_Z (Z.of_nat i))
    by (change 0 with (inject_Z 0); rewrite <- Zle_Qle; lia).
  assert (Hij' : inject_Z (Z.of_nat i) <= inject_Z (Z.of_nat j))
    by (rewrite <- Zle_Qle; lia).
  assert (Hjd : inject_Z (Z.of_nat j) < d) by (unfold d; rewrite <- Zlt_Qlt; lia).
  repeat split; nra.
Qed.

Lemma linspace_unit_monotone (n i j : nat) (xi xj : Q) :
  (i <= j)%nat ->
  nth_error (Np.linspace 0 1 n) i = Some xi ->
  nth_error (Np.linspace 0 1 n) j = Some xj ->
  0 <= xi /\ xi <= xj /\ xj <= 1.
Proof.
  intros Hij Ei Ej. destruct n as [|[|m]].
  - destruct i; discriminate.
  - destruct i as [|[|i]]; try discriminate. destruct j as [|[|j]]; try discriminate.
    simpl in Ei, Ej. inversion Ei. inversion Ej. subst. repeat split; lra.
  - rewrite linspace_nth in Ei, Ej.
    destruct (j <? S m)%nat eqn:Hj.
    + apply Nat.ltb_lt in Hj.
      assert (Hi : (i <? S m)%nat = true) by (apply Nat.ltb_lt; lia).
      rewrite Hi in Ei. inversion Ei. inversion Ej. subst.
      destruct (unit_sample m i j Hij Hj) as [H0 [Hle Hlt]].
      repeat split; [exact H0 | exact Hle | apply Qlt_le_weak; exact Hlt].
    + destruct (j =? S m)%nat eqn:Hj'; [|discriminate]. inversion Ej. subst xj.
      destruct (i <? S m)%nat eqn:Hi.
      * apply Nat.ltb_lt in Hi. inversion Ei. subst.
        destruct (unit_sample m i i (Nat.le_refl i) Hi) as [H0 [Hle Hlt]].
        repeat split; [exact H0 | apply Qlt_le_weak; exact Hlt | lra].
      * destruct (i =? S m)%nat; [|discriminate]. inversion Ei. subst. repeat split; lra.
Qed.

Lemma exp_le (x y : R) : (x <= y)%R -> (exp x <= exp y)%R.
Proof.
  intros [Hlt | ->].
  - left. apply exp_increasing. exact Hlt.
  - right. reflexivity.
Qed.

Lemma epsilon_nth (n i : nat) :
  nth_error (epsilon_schedule n) i =
    option_map (fun x => exp (Q2R (-5 * x))) (nth_error (Np.linspace 0 1 n) i).
Proof. unfold epsilon_schedule. apply nth_error_map. Qed.

Lemma epsilon_length (n : nat) : length (epsilon_schedule n) = n.
Proof. unfold epsilon_schedule. rewrite length_map. apply linspace_length. Qed.

Lemma Q2R_minus5 : Q2R (-5) = (-5)%R.
Proof. unfold Q2R. simpl. Lra.lra. Qed.

Lemma epsilon_monotone (n i j : nat) (ei ej : R) :
  (i <= j)%nat ->
  nth_error (epsilon_schedule n) i = Some ei ->
  nth_error (epsilon_schedule n) j = Some ej ->
  (exp (-5) <= ej /\ ej <= ei /\ ei <= 1)%R.
Proof.
  intros Hij Ei Ej. rewrite epsilon_nth in Ei, Ej.
  destruct (nth_error (Np.linspace 0 1 n) i) as [xi|] eqn:Exi; [|discriminate].
  destruct (nth_error (Np.linspace 0 1 n) j) as [xj|] eqn:Exj; [|discriminate].
  simpl in Ei, Ej. inversion Ei. inversion Ej. subst ei ej.
  destruct (linspace_unit_monotone n i j xi xj Hij Exi Exj) as [H0 [Hle H1]].
  rewrite <- exp_0, <- Q2R_minus5, <- RMicromega.Q2R_0.
  repeat split; apply exp_le; apply Qle_Rle; lra.
Qed.

Lemma exp_minus5_lt_1 : (exp (-5) < 1)%R.
Proof. rewrite <- exp_0. apply exp_increasing. Lra.lra. Qed.

Lemma epsilon_first (n : nat) :
  (1 <= n)%nat -> nth_error (epsilon_schedule n) 0 = Some 1%R.
Proof.
  intro Hn. rewrite epsilon_nth. destruct n as [|[|m]]; [lia | |].
  - simpl. f_equal. rewrite <- exp_0. f_equal.
    rewrite <- RMicromega.Q2R_0. apply Qeq_eqR. reflexivity.
  - rewrite linspace_nth. simpl. f_equal. rewrite <- exp_0. f_equal.
    rewrite <- RMicromega.Q2R_0. apply Qeq_eqR. ring.
Qed.

Lemma epsilon_last (n : nat) :
  (2 <= n)%nat -> nth_error (epsilon_schedule n) (n - 1) = Some (exp (-5)).
Proof.
  intro Hn. rewrite epsilon_nth. destruct n as [|[|m]]; try lia.
  rewrite linspace_nth. replace (S (S m) - 1)%nat with (S m) by lia.
  rewrite Nat.ltb_irrefl, Nat.eqb_refl. simpl. f_equal. f_equal.
  rewrite <- Q2R_minus5. apply Qeq_eqR. reflexivity.
Qed.

(** C6, amended.  The schedule stored at construction has one entry per
    episode; its first entry (when there is an episode) is 1; its last
    entry, when there are at least two episodes, is [exp(-5)], within
    [exp(-5)] of 0; and it never increases. *)
Theorem epsilon_schedule_decays
    (sp na : nat) (shp : list nat) (n : nat) (lr gm : Q) (g : Rng) :
  let a := fst (Agent_init sp na shp n lr gm g) in
  length (epsilon a) = n /\
  ((1 <= n)%nat ->
   exists e0, nth_error (epsilon a) 0 = Some e0 /\
              e0 = 1%R /\ (Rabs (e0 - 1) <= exp (-5))%R) /\
  ((2 <= n)%nat ->
   exists el, nth_error (epsilon a) (n - 1) = Some el /\
              el = exp (-5) /\ (Rabs (el - 0) <= exp (-5))%R) /\
  (forall i j, (i < j < n)%nat ->
   exists ei ej, nth_error (epsilon a) i = Some ei /\
                 nth_error (epsilon a) j = Some ej /\ (ej <= ei)%R).
Proof.
  intro a.
  destruct (Agent_init_table sp na shp n lr gm g) as [_ [_ [He _]]].
  fold a in He. rewrite He. split; [apply epsilon_length|]. split; [|split].
  - intro Hn. exists 1%R. split; [apply epsilon_first; exact Hn|]. split; [reflexivity|].
    replace (1 - 1)%R with 0%R by Lra.lra. rewrite Rabs_R0. left. apply exp_pos.
  - intro Hn. exists (exp (-5)). split; [apply epsilon_last; exact Hn|]. split; [reflexivity|].
    replace (exp (-5) - 0)%R with (exp (-5)) by Lra.lra.
    rewrite Rabs_pos_eq; [right; reflexivity | left; apply exp_pos].
  - intros i j [Hij Hj].
    destruct (nth_error (epsilon_schedule n) i) as [ei|] eqn:Ei.
    2:{ apply nth_error_None in Ei. rewrite epsilon_length in Ei. lia. }
    destruct (nth_error (epsilon_schedule n) j) as [ej|] eqn:Ej.
    2:{ apply nth_error_None in Ej. rewrite epsilon_length in Ej. lia. }
    exists ei, ej. repeat split.
    apply (epsilon_monotone n i j ei ej); [lia | exact Ei | exact Ej].
Qed.

(** A schedule of three episodes: [1, exp(-2.5), exp(-5)]. *)
Lemma epsilon_schedule_decays_witness :
  length (epsilon (fst (Agent_init 2 2 [21; 21; 21; 21]%nat 3 0.1 0.95 Examples.still))) = 3%nat /\
  nth_error (epsilon (fst (Agent_init 2 2 [21; 21; 21; 21]%nat 3 0.1 0.95 Examples.still))) 2
    = Some (exp (-5)).
Proof.
  destruct (epsilon_schedule_decays 2 2 [21; 21; 21; 21]%nat 3 0.1 0.95 Examples.still)
    as [Hlen [_ [Hlast _]]].
  split; [exact Hlen|].
  destruct Hlast as [el [E [-> _]]]; [lia | exact E].
Defined.

(** C6 as stated fails for a single episode: the schedule is [[1.0]], whose
    last entry is not within [exp(-5)] of 0. *)
Lemma epsilon_single_episode_counterexample :
  exists el,
    nth_error (epsilon (fst (Agent_init 2 2 [21; 21; 21; 21]%nat 1 0.1 0.95 Examples.still)))
              (1 - 1) = Some el /\
    ~ (Rabs (el - 0) <= exp (-5))%R.
Proof.
  exists 1%R. split.
  - apply (epsilon_first 1). lia.
  - replace (1 - 0)%R with 1%R by Lra.lra. rewrite Rabs_R1.
    pose proof exp_minus5_lt_1. Lra.lra.
Qed.

(** ** [Agent.act] *)

Lemma act_frame (a : Agent) (g : Rng) (observation : list Z) (episode_number : nat)
    (x : nat) (a' : Agent) (g' : Rng) :
  act a g observation episode_number = Ok (x, a', g') -> a' = a.
Proof.
  unfold act. intro E.
  destruct (Random.uniform 1 0 g) as [u g1].
  destruct (lookup (epsilon a) episode_number) as [eps | |]; cbn [bind] in E;
    try discriminate E.
  destruct (Rlt_dec (Q2R u) eps).
  - destruct (Random.sample (action_space a) g1). inversion E. reflexivity.
  - destruct (exploit a observation); cbn [bind] in E; try discriminate E.
    inversion E. reflexivity.
Qed.

(** C10.  A call of [act] that returns leaves the agent, and with it every
    entry and the shape of the table, as it was; this holds on the
    exploring and on the greedy branch alike. *)
Theorem act_preserves_q_table
    (a : Agent) (g : Rng) (observation : list Z) (episode_number : nat)
    (x : nat) (a' : Agent) (g' : Rng) :
  act a g observation episode_number = Ok (x, a', g') ->
  a' = a /\ shape (q_table a') = shape (q_table a) /\
  forall k, nth_error (data (q_table a')) k = nth_error (data (q_table a)) k.
Proof.
  intro E. apply act_frame in E. subst a'. auto.
Qed.

Lemma act_greedy (a : Agent) (g : Rng) (observation : list Z) (episode_number : nat)
    (eps : R) :
  lookup (epsilon a) episode_number = Ok eps ->
  ~ (Q2R (fst (Random.uniform 1 0 g)) < eps)%R ->
  act a g observation episode_number =
    (x <- exploit a observation ;; Ok (x, a, snd (Random.uniform 1 0 g))).
Proof.
  intros El Hge. unfold act.
  destruct (Random.uniform 1 0 g) as [u g1]. simpl in Hge. rewrite El. cbn [bind].
  destruct (Rlt_dec (Q2R u) eps); [contradiction | reflexivity].
Qed.

Lemma act_explore (a : Agent) (g : Rng) (observation : list Z) (episode_number : nat)
    (eps : R) :
  lookup (epsilon a) episode_number = Ok eps ->
  (Q2R (fst (Random.uniform 1 0 g)) < eps)%R ->
  act a g observation episode_number =
    Ok (fst (Random.sample (action_space a) (snd (Random.uniform 1 0 g))), a,
        snd (Random.sample (action_space a) (snd (Random.uniform 1 0 g)))).
Proof.
  intros El Hlt. unfold act.
  destruct (Random.uniform 1 0 g) as [u g1]. simpl in Hlt. rewrite El. cbn [bind].
  destruct (Rlt_dec (Q2R u) eps); [|contradiction].
  cbn [fst snd]. destruct (Random.sample (action_space a) g1). reflexivity.
Qed.

(** C7.  On the greedy branch (the draw is not below the episode's epsilon)
    [act] returns, for in-range indices, a position [x] of the row
    [Q[state]] whose entry no other entry exceeds and which every earlier
    entry is strictly below: the lowest index among equal maxima.  The
    agent is unchanged, and any further greedy call on the same state
    returns the same [x]. *)
Theorem act_greedy_lowest_index
    (a : Agent) (g : Rng) (dims : list nat) (n : nat) (observation : list Z)
    (episode_number : nat) (eps : R) :
  wf (q_table a) -> shape (q_table a) = dims ++ [n] -> (0 < n)%nat ->
  in_range dims observation ->
  lookup (epsilon a) episode_number = Ok eps ->
  ~ (Q2R (fst (Random.uniform 1 0 g)) < eps)%R ->
  exists x row xv,
    act a g observation episode_number = Ok (x, a, snd (Random.uniform 1 0 g)) /\
    view (q_table a) observation = Ok ([n], row) /\
    (forall k, read (q_table a) observation k = lookup row k) /\
    (x < n)%nat /\ nth_error row x = Some xv /\
    (forall j v, nth_error row j = Some v -> v <= xv) /\
    (forall j v, (j < x)%nat -> nth_error row j = Some v -> v < xv) /\
    (forall j v, nth_error row j = Some v -> v == xv -> (x <= j)%nat) /\
    (forall g2, ~ (Q2R (fst (Random.uniform 1 0 g2)) < eps)%R ->
       act a g2 observation episode_number = Ok (x, a, snd (Random.uniform 1 0 g2))).
Proof.
  intros Hwf Hs Hn Hr El Hge.
  destruct (view_row _ dims n observation Hwf Hs Hr) as [o [row [_ [Ev [Hlen _]]]]].
  destruct (read_row _ dims n observation row Hwf Hs Hr Ev) as [_ Hread].
  destruct (argmax_nonempty row) as [x Ex]; [lia|].
  destruct (argmax_spec row x Ex) as [xv [Exv [Hmax Hfirst]]].
  assert (Hexp : exploit a observation = Ok x)
    by (unfold exploit; rewrite Ev; exact Ex).
  exists x, row, xv. repeat split; auto.
  - rewrite (act_greedy a g observation episode_number eps El Hge), Hexp. reflexivity.
  - rewrite <- Hlen. apply nth_error_Some. rewrite Exv. discriminate.
  - intros j v Ej Heq. destruct (Nat.lt_ge_cases j x) as [Hj | Hj]; [|exact Hj].
    specialize (Hfirst j v Hj Ej). lra.
  - intros g2 Hge2.
    rewrite (act_greedy a g2 observation episode_number eps El Hge2), Hexp. reflexivity.
Qed.

Lemma still_draw : Q2R (fst (Random.uniform 1 0 Examples.still)) = 1%R.
Proof.
  rewrite <- RMicromega.Q2R_1. apply Qeq_eqR. reflexivity.
Qed.

Lemma tied_epsilon : lookup (epsilon Examples.tied_agent) 1 = Ok (exp (-5)).
Proof. apply lookup_Ok. apply (epsilon_last 2). lia. Qed.

Lemma tied_act :
  act Examples.tied_agent Examples.still [0%Z] 1 =
    Ok (1%nat, Examples.tied_agent, snd (Random.uniform 1 0 Examples.still)).
Proof.
  rewrite (act_greedy _ _ _ _ _ tied_epsilon).
  - reflexivity.
  - rewrite still_draw. pose proof exp_minus5_lt_1. Lra.lra.
Qed.

(** Three actions with values -1, -0.5, -0.5: the greedy choice is
    action 1, the first of the two tied best. *)
Lemma act_greedy_lowest_index_witness :
  exists x row,
    act Examples.tied_agent Examples.still [0%Z] 1 =
      Ok (x, Examples.tied_agent, snd (Random.uniform 1 0 Examples.still)) /\
    view (q_table Examples.tied_agent) [0%Z] = Ok ([3%nat], row) /\
    x = 1%nat /\ row = [-1; -0.5; -0.5].
Proof.
  destruct (act_greedy_lowest_index Examples.tied_agent Examples.still [1%nat] 3 [0%Z] 1
              (exp (-5)))
    as [x [row [xv [Ea [Ev _]]]]].
  - reflexivity.
  - reflexivity.
  - lia.
  - constructor; [lia | constructor].
  - exact tied_epsilon.
  - rewrite still_draw. pose proof exp_minus5_lt_1. Lra.lra.
  - exists x, row. split; [exact Ea|]. split; [exact Ev|].
    rewrite tied_act in Ea. inversion Ea. subst x.
    vm_compute in Ev. inversion Ev. split; reflexivity.
Defined.

(** The same greedy call leaves the table of the tied agent untouched. *)
Lemma act_preserves_q_table_witness :
  act Examples.tied_agent Examples.still [0%Z] 1 =
    Ok (1%nat, Examples.tied_agent, snd (Random.uniform 1 0 Examples.still)) /\
  (Examples.tied_agent = Examples.tied_agent /\
   shape (q_table Examples.tied_agent) = shape (q_table Examples.tied_agent) /\
   forall k, nth_error (data (q_table Examples.tied_agent)) k =
             nth_error (data (q_table Examples.tied_agent)) k).
Proof.
  split; [exact tied_act|].
  exact (act_preserves_q_table _ _ _ _ _ _ _ tied_act).
Defined.

(** ** Discretization *)

Lemma digitize_le_length (x : Q) (b : list Q) : (Np.digitize x b <= length b)%nat.
Proof.
  induction b as [|e b IH]; simpl; [lia|].
  destruct (Qle_bool e x); lia.
Qed.

Lemma digitize_below (x e : Q) (rest : list Q) :
  x < e -> Np.digitize x (e :: rest) = 0%nat.
Proof.
  intro Hlt. simpl. destruct (Qle_bool e x) eqn:E; [|reflexivity].
  apply Qle_bool_iff in E. lra.
Qed.

Lemma digitize_from_first (x e : Q) (rest : list Q) :
  e <= x -> (1 <= Np.digitize x (e :: rest))%nat.
Proof.
  intro Hle. simpl. apply Qle_bool_iff in Hle. rewrite Hle. lia.
Qed.

Lemma digitize_above (x : Q) (b : list Q) :
  (forall e, In e b -> e <= x) -> Np.digitize x b = length b.
Proof.
  induction b as [|e b IH]; intro Hall; simpl; [reflexivity|].
  assert (He : Qle_bool e x = true) by (apply Qle_bool_iff; apply Hall; left; reflexivity).
  rewrite He. f_equal. apply IH. intros e' He'. apply Hall. right. exact He'.
Qed.

Lemma edges_check_spec (b : list Q) :
  edges_check b = true ->
  length b = 20%nat /\ forall e, In e b -> e <= last b 0.
Proof.
  unfold edges_check. intro E. apply andb_prop in E as [El Ea].
  apply Nat.eqb_eq in El. split; [exact El|].
  intros e He. rewrite forallb_forall in Ea. apply Qle_bool_iff. apply Ea. exact He.
Qed.

(** The index of one dimension. *)
Lemma bin_index_range (v : Q) (b : list Q) :
  edges_check b = true ->
  let idx := (Z.of_nat (Np.digitize v b) - 1)%Z in
  (-1 <= idx <= 20 - 1)%Z /\
  (v < hd 0 b -> idx = (-1)%Z) /\
  (hd 0 b <= v -> (0 <= idx)%Z) /\
  (last b 0 <= v -> idx = (20 - 1)%Z).
Proof.
  intros Hc idx. destruct (edges_check_spec b Hc) as [Hlen Hall].
  pose proof (digitize_le_length v b) as Hle.
  destruct b as [|e rest]; [discriminate Hlen|].
  unfold idx. repeat split; try lia.
  - intro Hlt. simpl hd in Hlt. rewrite (digitize_below v e rest Hlt). reflexivity.
  - intro Hge. simpl hd in Hge. pose proof (digitize_from_first v e rest Hge). lia.
  - intro Hge. rewrite digitize_above.
    + rewrite Hlen. reflexivity.
    + intros e' He'. specialize (Hall e' He'). lra.
Qed.

Lemma discretize_spec (dims : list nat) (raw : list Q) (bs : list (list Q)) :
  (forall i, In i dims -> (i < length raw)%nat /\ (i < length bs)%nat) ->
  exists t,
    discretize dims raw bs = Ok t /\ length t = length dims /\
    forall k i, nth_error dims k = Some i ->
      exists v b, nth_error raw i = Some v /\ nth_error bs i = Some b /\
                  nth_error t k = Some (Z.of_nat (Np.digitize v b) - 1)%Z.
Proof.
  induction dims as [|i dims IH]; intro Hin.
  - exists []. repeat split. intros [|k] j E; discriminate E.
  - destruct IH as [t [Et [Hlen Hnth]]].
    { intros j Hj. apply Hin. right. exact Hj. }
    destruct (Hin i (or_introl eq_refl)) as [Hraw Hbs].
    destruct (lookup_lt raw i Hraw) as [v Ev].
    destruct (lookup_lt bs i Hbs) as [b Eb].
    exists ((Z.of_nat (Np.digitize v b) - 1)%Z :: t). repeat split.
    + simpl. rewrite Ev, Eb. cbn [bind]. rewrite Et. reflexivity.
    + simpl. rewrite Hlen. reflexivity.
    + intros [|k] j E; simpl in E.
      * inversion E. subst j. exists v, b.
        apply lookup_Ok in Ev. apply lookup_Ok in Eb. auto.
      * apply Hnth. exact E.
Qed.

Lemma cartpole_edges (b : list Q) :
  In b [Np.linspace (-4.8) 4.8 20; Np.linspace (-4) 4 20;
        Np.linspace (-0.418) 0.418 20; Np.linspace (-4) 4 20] ->
  edges_check b = true.
Proof.
  intros [<- | [<- | [<- | [<- | []]]]]; vm_compute; reflexivity.
Qed.

Section Adapter.

Context {Sim : Type} `{Gym Sim}.

(** [set_observation] on an adapter that carries the CartPole edges. *)
Lemma set_observation_cartpole (e : MyEnvironment Sim) (raw : list Q) :
  is_cartpole (environment_name e) = true ->
  bins e = Some [Np.linspace (-4.8) 4.8 20; Np.linspace (-4) 4 20;
                 Np.linspace (-0.418) 0.418 20; Np.linspace (-4) 4 20] ->
  (gym_obs_dim (environment e) <= 4)%nat ->
  (gym_obs_dim (environment e) <= length raw)%nat ->
  exists bs t,
    bins e = Some bs /\
    set_observation e raw = Ok (with_observation e (ObsIndex t)) /\
    length t = gym_obs_dim (environment e) /\
    forall i, (i < gym_obs_dim (environment e))%nat ->
      exists v b idx,
        nth_error raw i = Some v /\ nth_error bs i = Some b /\
        nth_error t i = Some idx /\
        length b = 20%nat /\
        idx = (Z.of_nat (Np.digitize v b) - 1)%Z /\
        (-1 <= idx <= 20 - 1)%Z /\
        (v < hd 0 b -> idx = (-1)%Z) /\
        (hd 0 b <= v -> (0 <= idx)%Z) /\
        (last b 0 <= v -> idx = (20 - 1)%Z) /\
        exists k, norm_index (20 + 1) idx = Ok k /\ (k <= 20)%nat.
Proof.
  intros Hc Hb Hdim Hraw.
  set (bs := [Np.linspace (-4.8) 4.8 20; Np.linspace (-4) 4 20;
              Np.linspace (-0.418) 0.418 20; Np.linspace (-4) 4 20]) in *.
  destruct (discretize_spec (seq 0 (gym_obs_dim (environment e))) raw bs)
    as [t [Et [Hlen Hnth]]].
  { intros i Hi. apply in_seq in Hi. simpl. lia. }
  rewrite length_seq in Hlen.
  exists bs, t. repeat split; auto.
  - unfold set_observation. rewrite Hc, Hb. cbn [attr bind]. rewrite Et. reflexivity.
  - intros i Hi.
    destruct (Hnth i i) as [v [b [Ev [Eb Eidx]]]].
    { rewrite nth_error_seq. apply Nat.ltb_lt in Hi. rewrite Hi. reflexivity. }
    assert (Hchk : edges_check b = true)
      by (apply cartpole_edges; eapply nth_error_In; exact Eb).
    destruct (bin_index_range v b Hchk) as [Hrange [Hlow [Hmid Hhigh]]].
    destruct (edges_check_spec b Hchk) as [Hlb _].
    exists v, b, (Z.of_nat (Np.digitize v b) - 1)%Z.
    repeat split; auto; try lia.
    destruct (norm_index_in_range (20 + 1) (Z.of_nat (Np.digitize v b) - 1)) as [k [Ek Hk]];
      [lia|].
    exists k. split; [exact Ek | lia].
Qed.

(** C2, amended.  For CartPole every dimension has 20 edges and the index
    stored is the [np.digitize] position minus one: it lies in
    [-1, n_bins - 1]; a value strictly below the lowest edge gives -1, a
    value at or above it a non-negative index, and a value at or above the
    highest edge gives [n_bins - 1 = 19].  Every such index addresses a
    cell of an axis of length [n_bins + 1]. *)
Theorem discretization_index_range
    (name : string) (e : MyEnvironment Sim) (raw : list Q) :
  is_cartpole name = true -> MyEnvironment_init name = Ok e ->
  (gym_obs_dim (environment e) <= 4)%nat ->
  (gym_obs_dim (environment e) <= length raw)%nat ->
  n_bins e = Some 20%nat /\
  exists bs t,
    bins e = Some bs /\
    set_observation e raw = Ok (with_observation e (ObsIndex t)) /\
    length t = gym_obs_dim (environment e) /\
    forall i, (i < gym_obs_dim (environment e))%nat ->
      exists v b idx,
        nth_error raw i = Some v /\ nth_error bs i = Some b /\
        nth_error t i = Some idx /\
        length b = 20%nat /\
        idx = (Z.of_nat (Np.digitize v b) - 1)%Z /\
        (-1 <= idx <= 20 - 1)%Z /\
        (v < hd 0 b -> idx = (-1)%Z) /\
        (hd 0 b <= v -> (0 <= idx)%Z) /\
        (last b 0 <= v -> idx = (20 - 1)%Z) /\
        exists k, norm_index (20 + 1) idx = Ok k /\ (k <= 20)%nat.
Proof.
  intros Hc Ei Hdim Hraw.
  destruct (init_cartpole name e Hc Ei) as [Hname [Hn Hb]].
  split; [exact Hn|].
  apply set_observation_cartpole; auto. rewrite Hname. exact Hc.
Qed.

(** C5, amended.  For a name without 'CartPole' the constructor raises
    nothing of its own: an error of [gym.make] passes through, and
    otherwise the adapter is built with [n_bins] and [bins] unset;
    [set_observation] then stores the raw observation as it is, the number
    of actions is the simulator's, and the state shape is [[horizon + 1]]
    (an error only where the simulator has no [horizon]). *)
Theorem unsupported_family_constructed (name : string) :
  is_cartpole name = false ->
  (forall err, gym_make name = Raise err -> MyEnvironment_init name = Raise err) /\
  (forall sim, gym_make name = Ok sim ->
     exists e,
       MyEnvironment_init name = Ok e /\
       environment_name e = name /\ environment e = sim /\
       n_bins e = None /\ bins e = None /\
       (forall raw, set_observation e raw = Ok (with_observation e (ObsRaw raw))) /\
       get_action_space_length e = gym_action_n sim /\
       get_observation_space_length e = (h <- gym_horizon sim ;; Ok [(h + 1)%nat])).
Proof.
  intro Hc. split.
  - intros err E. unfold MyEnvironment_init. rewrite E. reflexivity.
  - intros sim E.
    exists {| environment_name := name; environment := sim; action := None;
              observation := ObsNone; n_bins := None; bins := None |}.
    unfold MyEnvironment_init, set_observation, get_action_space_length,
      get_observation_space_length.
    rewrite E. cbn [bind environment_name environment n_bins bins]. rewrite Hc.
    repeat split; reflexivity.
Qed.

(** ** The [break] condition *)

Lemma range_spec (n i : nat) : In i (range n) <-> (i < n)%nat.
Proof. unfold range. rewrite in_seq. lia. Qed.

Lemma safety_bound_below (n_episodes episode_index : nat) :
  (episode_index < n_episodes)%nat -> safety_bound n_episodes episode_index = false.
Proof.
  intro Hlt. unfold safety_bound, running_length. apply Nat.leb_gt. lia.
Qed.

(** C9.  For an index drawn from [range(n_episodes)] the first disjunct of
    the [break] condition, [episode_index >= n_episodes + running_length],
    is false, so the [break] condition is its second disjunct. *)
Theorem safety_bound_unreachable
    (n_episodes episode_index : nat) (accuracies deltas : list Q) :
  In episode_index (range n_episodes) ->
  safety_bound n_episodes episode_index = false /\
  early_stop n_episodes episode_index accuracies deltas
    = converged episode_index accuracies deltas.
Proof.
  intro Hin. apply range_spec in Hin.
  unfold early_stop. rewrite (safety_bound_below _ _ Hin). auto.
Qed.

Lemma all_map_Forall {A : Type} (p : A -> bool) (P : A -> Prop) (l : list A) :
  (forall x, p x = true <-> P x) ->
  Np.all (map p l) = true <-> Forall P l.
Proof.
  intro Hp. unfold Np.all. induction l as [|x l IH]; simpl.
  - split; auto.
  - rewrite andb_true_iff, IH, Hp. split.
    + intros [Hx Hl]. constructor; assumption.
    + intro Hf. inversion Hf. auto.
Qed.

Lemma converged_spec (episode_index : nat) (accuracies deltas : list Q) :
  converged episode_index accuracies deltas = true <->
  (running_length <= episode_index)%nat /\
  Forall (fun accuracy => accuracy == 1) accuracies /\
  Forall (fun delta => delta < 0.0001) deltas.
Proof.
  unfold converged. rewrite !andb_true_iff, Nat.leb_le.
  rewrite (all_map_Forall _ (fun accuracy => accuracy == 1)).
  2:{ intro x. apply Qeq_bool_iff. }
  rewrite (all_map_Forall _ (fun delta => delta < 0.0001)).
  2:{ intro x. destruct (Qlt_le_dec x 0.0001); split; auto; try discriminate. lra. }
  tauto.
Qed.

End Adapter.

(** ** The episode loop *)

Section Loop.

Context {Sim : Type} `{Gym Sim}.

(** The calls behind one successful pass through the loop body. *)
Lemma loop_body_Ok (i : nat) (s s' : Episode Sim) (done : bool) :
  loop_body i s = Ok (s', done) ->
  exists st a g env raw reward env' st' delta agent',
    as_index (ep_observation s) = Ok st /\
    act (ep_agent s) (ep_rng s) st i = Ok (a, ep_agent s, g) /\
    step (set_action (ep_environment s) a) = Ok (env, (raw, reward, done)) /\
    gym_step (environment (ep_environment s)) a = (environment env, (raw, reward, done)) /\
    env = with_sim (set_action (ep_environment s) a) (environment env) /\
    set_observation env raw = Ok env' /\
    as_index (observation env') = Ok st' /\
    update (ep_agent s) st a st' reward = Ok (delta, agent') /\
    s' = {| ep_environment := env'; ep_agent := agent'; ep_rng := g;
            ep_observation := observation env';
            episode_count := episode_count s + 1;
            optimal_actions := optimal_actions s + success reward;
            delta_update := delta_update s ++ [delta];
            rewards := rewards s ++ [reward] |}.
Proof.
  unfold loop_body. intro E.
  destruct (as_index (ep_observation s)) as [st | |] eqn:Ei;
    cbn [bind] in E; try discriminate E.
  destruct (act (ep_agent s) (ep_rng s) st i) as [[[a agent] g] | |] eqn:Ea;
    cbn [bind] in E; try discriminate E.
  destruct (step (set_action (ep_environment s) a)) as [[env [[raw reward] done']] | |] eqn:Es;
    cbn [bind] in E; try discriminate E.
  destruct (set_observation env raw) as [env' | |] eqn:Eo;
    cbn [bind] in E; try discriminate E.
  destruct (as_index (observation env')) as [st' | |] eqn:Ei';
    cbn [bind] in E; try discriminate E.
  destruct (update agent st a st' reward) as [[delta agent'] | |] eqn:Eu;
    cbn [bind] in E; try discriminate E.
  inversion E; subst; clear E.
  assert (Hag : agent = ep_agent s) by (eapply act_frame; exact Ea).
  subst agent.
  assert (Hstep : gym_step (environment (ep_environment s)) a
                  = (environment env, (raw, reward, done)) /\
                  env = with_sim (set_action (ep_environment s) a) (environment env)).
  { unfold step in Es. cbn [set_action action environment] in Es.
    destruct (gym_step (environment (ep_environment s)) a) as [sim out].
    inversion Es; subst. cbn [with_sim environment]. auto. }
  destruct Hstep as [Hstep Henv].
  exists st, a, g, env, raw, reward, env', st', delta, agent'.
  repeat split; auto.
Qed.

Lemma loop_body_counts (i : nat) (s s' : Episode Sim) (done : bool) :
  loop_body i s = Ok (s', done) ->
  exists reward delta,
    emitted reward /\
    rewards s' = rewards s ++ [reward] /\
    delta_update s' = delta_update s ++ [delta] /\
    episode_count s' = (episode_count s + 1)%nat /\
    optimal_actions s' = (optimal_actions s + success reward)%nat.
Proof.
  intro E. destruct (loop_body_Ok i s s' done E)
    as [st [a [g [env [raw [reward [env' [st' [delta [agent'
         [_ [_ [_ [Hstep [_ [_ [_ [_ ->]]]]]]]]]]]]]]]]]].
  exists reward, delta. repeat split; auto.
  exists (environment (ep_environment s)), a. rewrite Hstep. reflexivity.
Qed.

Lemma successes_app (rs rs' : list Q) :
  successes (rs ++ rs') = (successes rs + successes rs')%nat.
Proof.
  induction rs as [|r rs IH]; simpl; [reflexivity|]. rewrite IH. lia.
Qed.

Lemma successes_le_length (rs : list Q) : (successes rs <= length rs)%nat.
Proof.
  induction rs as [|r rs IH]; simpl; [lia|].
  unfold success. destruct (Qlt_le_dec 0 r); lia.
Qed.

(** What the counters hold when the [while] loop is left: with [rs] the
    rewards of the steps it took (at least one and at most [fuel]),
    [episode_count] has grown by their number and [optimal_actions] by the
    number of positive ones. *)
Lemma while_not_done_counts (fuel i : nat) (s s' : Episode Sim) :
  while_not_done fuel i s = Ok s' ->
  exists rs,
    (1 <= length rs <= fuel)%nat /\ Forall emitted rs /\
    rewards s' = rewards s ++ rs /\
    length (delta_update s') = (length (delta_update s) + length rs)%nat /\
    episode_count s' = (episode_count s + length rs)%nat /\
    optimal_actions s' = (optimal_actions s + successes rs)%nat.
Proof.
  revert s. induction fuel as [|fuel IH]; intros s E; simpl in E; [discriminate E|].
  destruct (loop_body i s) as [[s1 done] | |] eqn:Eb; cbn [bind] in E; try discriminate E.
  destruct (loop_body_counts i s s1 done Eb) as [reward [delta [Hem [Hr [Hd [Hc Ho]]]]]].
  destruct done.
  - inversion E; subst s'. exists [reward]. simpl.
    rewrite Hd, length_app. simpl. repeat split; auto; lia.
  - destruct (IH s1 E) as [rs [Hlen [Hems [Hr' [Hd' [Hc' Ho']]]]]].
    exists (reward :: rs). simpl.
    rewrite Hr', Hr, <- app_assoc, Hd', Hd, length_app, Hc', Hc, Ho', Ho. simpl.
    repeat split; auto; lia.
Qed.

(** The statistics appended by one episode. *)
Lemma episode_statistics (fuel i : nat) (t t' : Training Sim) :
  episode fuel i t = Ok t' ->
  exists rs total,
    (1 <= length rs <= fuel)%nat /\ Forall emitted rs /\
    reward_log t' = reward_log t ++ [rs] /\
    running_accuracy t' = running_accuracy t ++ [ratio (successes rs) (1 + length rs)] /\
    running_delta t' = running_delta t ++ [total].
Proof.
  unfold episode. intro E.
  destruct (reset (t_environment t)) as [env raw].
  destruct (set_observation env raw) as [env' | |]; cbn [bind] in E; try discriminate E.
  match type of E with
  | bind (while_not_done fuel i ?s0) _ = _ =>
      destruct (while_not_done fuel i s0) as [s | |] eqn:Ew;
      cbn [bind] in E; try discriminate E;
      destruct (while_not_done_counts fuel i s0 s Ew) as [rs [Hlen [Hem [Hr [_ [Hc Ho]]]]]]
  end.
  simpl in Hr, Hc, Ho. inversion E; subst t'; clear E.
  exists rs, (Np.sum (delta_update s)). cbn [reward_log running_accuracy running_delta].
  unfold accuracy, ratio. rewrite Hr, Hc, Ho. auto.
Qed.

End Loop.

(** ** The recorded accuracy *)

Lemma ratio_below_one (rs : list Q) : ratio (successes rs) (1 + length rs) < 1.
Proof.
  unfold ratio. apply Qlt_shift_div_r.
  - change 0 with (inject_Z 0). rewrite <- Zlt_Qlt. lia.
  - rewrite Qmult_1_l. rewrite <- Zlt_Qlt. pose proof (successes_le_length rs). lia.
Qed.

(** With a success in the episode, what is recorded is not successes over
    steps. *)
Lemma ratio_not_claimed (rs : list Q) :
  (1 <= successes rs)%nat ->
  ratio (successes rs) (1 + length rs) < ratio (successes rs) (length rs).
Proof.
  intro Hs. pose proof (successes_le_length rs) as Hle. unfold ratio.
  set (n := inject_Z (Z.of_nat (successes rs))).
  set (d := inject_Z (Z.of_nat (length rs))).
  assert (Hn : 0 < n)
    by (unfold n; change 0 with (inject_Z 0); rewrite <- Zlt_Qlt; lia).
  assert (Hd : 0 < d)
    by (unfold d; change 0 with (inject_Z 0); rewrite <- Zlt_Qlt; lia).
  assert (Hd1 : inject_Z (Z.of_nat (1 + length rs)) == d + 1).
  { unfold d. rewrite Nat2Z.inj_add, inject_Z_plus. simpl. ring. }
  rewrite Hd1.
  apply Qlt_shift_div_r; [lra|].
  assert (E : n / d * (d + 1) == n + n / d) by (field; lra).
  rewrite E.
  assert (0 < n / d) by (apply Qlt_shift_div_l; lra).
  lra.
Qed.

Section Statistics.

Context {Sim : Type} `{Gym Sim}.

(** An accuracy just recorded is below 1.0, so the second disjunct of the
    [break] condition is false. *)
Lemma converged_after_episode (fuel i : nat) (t t' : Training Sim) :
  episode fuel i t = Ok t' ->
  converged i (running_accuracy t') (running_delta t') = false.
Proof.
  intro E. destruct (episode_statistics fuel i t t' E) as [rs [total [_ [_ [_ [Ha _]]]]]].
  destruct (converged i (running_accuracy t') (running_delta t')) eqn:Ec; [|reflexivity].
  apply converged_spec in Ec. destruct Ec as [_ [Hall _]].
  rewrite Ha in Hall. apply Forall_app in Hall. destruct Hall as [_ Hlast].
  inversion Hlast as [|x l Hx _]; subst. cbv beta in Hx.
  pose proof (ratio_below_one rs) as Hlt. rewrite Hx in Hlt. discriminate Hlt.
Qed.

Lemma episode_recorded (fuel i : nat) (t t' : Training Sim) :
  recorded fuel t -> episode fuel i t = Ok t' ->
  recorded fuel t' /\
  length (running_accuracy t') = S (length (running_accuracy t)) /\
  length (running_delta t') = S (length (running_delta t)).
Proof.
  unfold recorded. intros Hrec E.
  destruct (episode_statistics fuel i t t' E) as [rs [total [Hlen [Hem [Hl [Ha Hd]]]]]].
  rewrite Hl, Ha, Hd, !length_app. simpl. repeat split; try lia.
  apply Forall2_app; [exact Hrec|]. constructor; [|constructor]. auto.
Qed.

(** The [for] loop never leaves through [break]: it records one episode per
    index. *)
Lemma for_episodes_recorded (fuel n : nat) (indices : list nat) (t t' : Training Sim) :
  (forall i, In i indices -> (i < n)%nat) ->
  recorded fuel t -> for_episodes fuel n indices t = Ok t' ->
  recorded fuel t' /\
  length (running_accuracy t') = (length (running_accuracy t) + length indices)%nat /\
  length (running_delta t') = (length (running_delta t) + length indices)%nat.
Proof.
  revert t. induction indices as [|i indices IH]; intros t Hin Hrec E; simpl in E.
  - inversion E; subst. simpl. repeat split; auto.
  - destruct (episode fuel i t) as [t1 | |] eqn:Ee; cbn [bind] in E; try discriminate E.
    destruct (episode_recorded fuel i t t1 Hrec Ee) as [Hrec1 [Ha1 Hd1]].
    unfold early_stop in E.
    rewrite (safety_bound_below n i) in E by (apply Hin; left; reflexivity).
    rewrite (converged_after_episode fuel i t t1 Ee) in E. simpl in E.
    destruct (IH t1) as [Hrec' [Ha' Hd']]; auto.
    { intros j Hj. apply Hin. right. exact Hj. }
    simpl. repeat split; auto; lia.
Qed.

(** Whenever [main] returns, it has recorded all [n_episodes] episodes, and
    each recorded accuracy is the successes of its episode over its steps
    plus one. *)
Lemma main_recorded (n : nat) (lr gm : Q) (g : Rng) (fuel : nat) (t : Training Sim) :
  main n lr gm g fuel = Ok t ->
  recorded fuel t /\
  length (running_accuracy t) = n /\ length (running_delta t) = n.
Proof.
  unfold main. intro E.
  destruct (MyEnvironment_init "CartPole-v1") as [env | |]; cbn [bind] in E;
    try discriminate E.
  destruct (reset env) as [env1 raw].
  destruct (get_observation_space_length env1) as [shp | |]; cbn [bind] in E;
    try discriminate E.
  destruct (Agent_init (gym_action_n (environment env1)) (get_action_space_length env1)
              shp n lr gm g) as [agent g'].
  apply for_episodes_recorded in E.
  - simpl in E. unfold range in E. rewrite length_seq in E. exact E.
  - intros i Hi. apply range_spec. exact Hi.
  - constructor.
Qed.

End Statistics.

(** ** [main] runs to its end *)

Lemma update_total (n : nat) (a : Agent) (st : list Z) (x : nat) (st' : list Z) (r : Q) :
  agent_ready n a ->
  in_range [21; 21; 21; 21]%nat st -> in_range [21; 21; 21; 21]%nat st' -> (x < 2)%nat ->
  exists delta a', update a st x st' r = Ok (delta, a') /\ agent_ready n a'.
Proof.
  intros [Hwf [Hs [He Ha]]] Hr Hr' Hx.
  destruct (read_in_range _ _ 2 st x Hwf Hs Hr Hx) as [k [q [Ec [Eq _]]]].
  destruct (view_row _ _ 2 st' Hwf Hs Hr') as [o [row [_ [Ev [Hlen _]]]]].
  destruct (max_nonempty row) as [m Em]; [lia|].
  pose proof (update_unfold a st x st' r k q m [2%nat] row Ec Eq Ev Em) as Eu.
  cbv zeta in Eu. eexists. eexists. split; [exact Eu|].
  destruct (update_frame _ _ _ _ _ _ _ Eu) as [_ [_ [Hs' [Hl' [_ [He' [Ha' _]]]]]]].
  unfold agent_ready, wf in *. rewrite Hs', Hl', He', Ha'. auto.
Qed.

Lemma act_total (n : nat) (a : Agent) (g : Rng) (st : list Z) (i : nat) :
  agent_ready n a -> (i < n)%nat -> in_range [21; 21; 21; 21]%nat st ->
  exists x g', act a g st i = Ok (x, a, g') /\ (x < 2)%nat.
Proof.
  intros [Hwf [Hs [He Ha]]] Hi Hr.
  destruct (lookup_lt (epsilon a) i) as [eps El].
  { rewrite He, epsilon_length. exact Hi. }
  destruct (Rlt_dec (Q2R (fst (Random.uniform 1 0 g))) eps) as [Hlt | Hge].
  - rewrite (act_explore a g st i eps El Hlt). eexists. eexists. split; [reflexivity|].
    rewrite Ha. unfold Random.sample. cbn [fst]. apply Nat.mod_upper_bound. discriminate.
  - rewrite (act_greedy a g st i eps El Hge).
    destruct (view_row _ _ 2 st Hwf Hs Hr) as [o [row [_ [Ev [Hlen _]]]]].
    destruct (argmax_nonempty row) as [x Ex]; [lia|].
    destruct (argmax_spec row x Ex) as [xv [Exv _]].
    unfold exploit. rewrite Ev. cbn [bind]. rewrite Ex. cbn [bind].
    eexists. eexists. split; [reflexivity|].
    rewrite <- Hlen. apply nth_error_Some. rewrite Exv. discriminate.
Qed.

Section Progress.

Context {Sim : Type} `{Gym Sim}.
Variable left : Sim -> nat.
Variable fuel : nat.
Hypothesis bounded : Bounded left fuel.

Lemma set_observation_ready (e : MyEnvironment Sim) (raw : list Q) :
  cartpole_ready e -> length raw = 4%nat ->
  exists t, set_observation e raw = Ok (with_observation e (ObsIndex t)) /\
            in_range [21; 21; 21; 21]%nat t.
Proof.
  intros [Hc Hb] Hraw.
  pose proof (obs_dim_4 _ _ bounded (environment e)) as Hdim.
  destruct (set_observation_cartpole e raw Hc Hb) as [bs [t [_ [Es [Hlen Hall]]]]];
    try lia.
  rewrite Hdim in Hlen, Hall. exists t. split; [exact Es|].
  assert (Hidx : forall i idx, nth_error t i = Some idx -> (-21 <= idx < 21)%Z).
  { intros i idx E.
    assert (Hi : (i < 4)%nat) by (rewrite <- Hlen; apply nth_error_Some; rewrite E; discriminate).
    destruct (Hall i Hi) as [v [b [idx' [_ [_ [E' [_ [_ [Hrange _]]]]]]]]].
    rewrite E in E'. inversion E'. subst idx'. lia. }
  destruct t as [|a [|b [|c [|d [|x t]]]]]; simpl in Hlen; try discriminate Hlen.
  unfold in_range.
  repeat constructor;
    try (apply (Hidx 0%nat); reflexivity); try (apply (Hidx 1%nat); reflexivity);
    try (apply (Hidx 2%nat); reflexivity); try (apply (Hidx 3%nat); reflexivity).
Qed.

Lemma loop_body_total (n i : nat) (s : Episode Sim) :
  (i < n)%nat -> episode_ready n s ->
  exists s' a,
    loop_body i s =
      Ok (s', snd (snd (gym_step (environment (ep_environment s)) a))) /\
    episode_ready n s' /\
    environment (ep_environment s') = fst (gym_step (environment (ep_environment s)) a).
Proof.
  intros Hi [[Hc Hb] [Hag [st [Eo Hst]]]].
  destruct (act_total n (ep_agent s) (ep_rng s) st i Hag Hi Hst) as [x [g' [Ea Hx]]].
  pose proof (step_len _ _ bounded (environment (ep_environment s)) x) as Hlen.
  destruct (gym_step (environment (ep_environment s)) x) as [sim' [[raw reward] done]] eqn:Es.
  cbn [fst snd] in Hlen.
  set (env := with_sim (set_action (ep_environment s) x) sim').
  assert (Hready : cartpole_ready env) by (split; assumption).
  destruct (set_observation_ready env raw Hready Hlen) as [t [Et Ht]].
  destruct (update_total n (ep_agent s) st x t reward Hag Hst Ht Hx) as [delta [a' [Eu Ha']]].
  eexists. exists x. rewrite Es. cbn [fst snd]. split; [|split].
  - unfold loop_body. rewrite Eo. cbn [as_index bind]. rewrite Ea. cbn [bind].
    unfold step. cbn [set_action action environment]. rewrite Es. cbn [bind].
    fold env. rewrite Et. cbn [bind with_observation observation as_index].
    rewrite Eu. cbn [bind]. reflexivity.
  - split; [|split].
    + split; assumption.
    + exact Ha'.
    + exists t. split; [reflexivity | exact Ht].
  - reflexivity.
Qed.

Lemma while_not_done_total (n i : nat) (budget : nat) (s : Episode Sim) :
  (i < n)%nat -> episode_ready n s ->
  (left (environment (ep_environment s)) < budget)%nat ->
  exists s', while_not_done budget i s = Ok s' /\ episode_ready n s'.
Proof.
  intro Hi. revert s. induction budget as [|budget IH]; intros s Hs Hleft; [lia|].
  destruct (loop_body_total n i s Hi Hs) as [s1 [a [Eb [Hs1 Hsim]]]].
  simpl. rewrite Eb. cbn [bind].
  destruct (snd (snd (gym_step (environment (ep_environment s)) a))) eqn:Hdone.
  - exists s1. auto.
  - apply IH; [exact Hs1|].
    pose proof (step_decr _ _ bounded _ _ Hdone) as Hdec. rewrite Hsim. lia.
Qed.

Lemma episode_total (n i : nat) (t : Training Sim) :
  (i < n)%nat -> training_ready n t ->
  exists t', episode fuel i t = Ok t' /\ training_ready n t'.
Proof.
  intros Hi [[Hc Hb] Hag]. unfold episode, reset.
  pose proof (reset_len _ _ bounded (environment (t_environment t))) as Hlen.
  pose proof (reset_fuel _ _ bounded (environment (t_environment t))) as Hfuel.
  destruct (gym_reset (environment (t_environment t))) as [sim raw].
  cbn [fst snd] in Hlen, Hfuel.
  set (env := with_sim (t_environment t) sim).
  assert (Hready : cartpole_ready env) by (split; assumption).
  destruct (set_observation_ready env raw Hready Hlen) as [st [Es Hst]].
  rewrite Es. cbn [bind].
  match goal with
  | |- context [while_not_done fuel i ?s0] =>
      destruct (while_not_done_total n i fuel s0 Hi) as [s' [Ew [Hc' [Hag' _]]]]
  end.
  - split; [|split].
    + exact Hready.
    + exact Hag.
    + exists st. split; [reflexivity | exact Hst].
  - exact Hfuel.
  - rewrite Ew. cbn [bind]. eexists. split; [reflexivity|]. split; assumption.
Qed.

Lemma for_episodes_total (n : nat) (indices : list nat) (t : Training Sim) :
  (forall i, In i indices -> (i < n)%nat) -> training_ready n t ->
  exists t', for_episodes fuel n indices t = Ok t' /\ training_ready n t'.
Proof.
  revert t. induction indices as [|i indices IH]; intros t Hin Ht.
  - exists t. auto.
  - destruct (episode_total n i t) as [t1 [Ee Ht1]]; auto.
    { apply Hin. left. reflexivity. }
    simpl. rewrite Ee. cbn [bind].
    destruct (early_stop n i (running_accuracy t1) (running_delta t1)).
    + exists t1. auto.
    + apply IH; auto. intros j Hj. apply Hin. right. exact Hj.
Qed.

(** On a simulator of CartPole whose episodes end within the fuel, [main]
    returns: it raises nothing and runs all [n] episodes. *)
Lemma main_total (n : nat) (lr gm : Q) (g : Rng) :
  exists t,
    main n lr gm g fuel = Ok t /\
    recorded fuel t /\
    length (running_accuracy t) = n /\ length (running_delta t) = n.
Proof.
  assert (Hex : exists t, main n lr gm g fuel = Ok t).
  { destruct (make_ok _ _ bounded) as [sim0 Em].
    unfold main, MyEnvironment_init. rewrite Em. cbn [bind].
    change (is_cartpole "CartPole-v1") with true. cbv iota. cbn [bind].
    unfold reset, get_observation_space_length, get_action_space_length.
    cbn [environment].
    destruct (gym_reset sim0) as [sim1 raw].
    cbn [with_sim environment_name n_bins environment attr bind].
    change (is_cartpole "CartPole-v1") with true. cbv iota. cbn [bind].
    rewrite (obs_dim_4 _ _ bounded), (action_n_2 _ _ bounded).
    pose proof (Agent_init_table 2 2 (repeat (20 + 1)%nat 4) n lr gm g) as Hinit.
    destruct (Agent_init 2 2 (repeat (20 + 1)%nat 4) n lr gm g) as [agent g'].
    cbn [fst] in Hinit. destruct Hinit as [Hs [Hwf [He [Ha _]]]].
    destruct (for_episodes_total n (range n)
                {| t_environment :=
                     {| environment_name := "CartPole-v1"; environment := sim1;
                        action := None; observation := ObsNone;
                        n_bins := Some 20%nat;
                        bins := Some [Np.linspace (-4.8) 4.8 20; Np.linspace (-4) 4 20;
                                      Np.linspace (-0.418) 0.418 20; Np.linspace (-4) 4 20] |};
                   t_agent := agent; t_rng := g';
                   running_delta := []; running_accuracy := []; reward_log := [] |})
      as [t [Et _]].
    - intros i Hi. apply range_spec. exact Hi.
    - split; [split; reflexivity|]. repeat split; assumption.
    - exists t. exact Et. }
  destruct Hex as [t Et]. exists t. split; [exact Et|].
  apply (main_recorded n lr gm g fuel t Et).
Qed.

End Progress.

(** ** The one-step simulator *)

Lemma one_step_bounded : @Bounded nat Examples.one_step_gym (fun _ => 0%nat) 1.
Proof.
  constructor; simpl; intros; try reflexivity; try discriminate; try lia.
  exists 0%nat. reflexivity.
Qed.

Lemma one_step_emitted (r : Q) : @emitted nat Examples.one_step_gym r -> r = 1.
Proof. intros [sim [a E]]. simpl in E. symmetry. exact E. Qed.

Lemma start_ready : training_ready 10 Examples.start.
Proof.
  split; [split; reflexivity|].
  destruct (Agent_init_table 2 2 [21; 21; 21; 21]%nat 10 0.1 0.95 Examples.still)
    as [Hs [Hwf [He [Ha _]]]].
  exact (conj Hwf (conj Hs (conj He Ha))).
Qed.

(** C4 at a failing input.  One episode of the one-step simulator: a single
    step, its reward 1.0 positive.  [main] records the accuracy 1/2, where
    successes over steps is 1/1. *)
Theorem accuracy_counts_one_step_too_many :
  exists t acc,
    @main nat Examples.one_step_gym 1 0.1 0.95 Examples.still 1 = Ok t /\
    reward_log t = [[1]] /\
    running_accuracy t = [acc] /\
    acc == 0.5 /\
    ratio (successes [1]) (length [1]) == 1 /\
    ~ acc == ratio (successes [1]) (length [1]).
Proof.
  destruct (main_total (fun _ : nat => 0%nat) 1 one_step_bounded 1 0.1 0.95 Examples.still)
    as [t [Et [Hrec [Hla _]]]].
  unfold recorded in Hrec.
  destruct (running_accuracy t) as [|acc [|acc' accs]] eqn:Ea; simpl in Hla; try discriminate Hla.
  inversion Hrec as [|rs acc0 logs accs0 [Hlen [Hem Hacc]] Hrest Elog Eacc]; subst.
  inversion Hrest; subst.
  destruct rs as [|r [|r' rs]]; simpl in Hlen; try lia.
  inversion Hem as [|r0 l0 Hr _]; subst. apply one_step_emitted in Hr. subst r.
  exists t, (ratio (successes [1]) (1 + length [1])).
  repeat split; auto.
  intro Heq. vm_compute in Heq. discriminate Heq.
Qed.

(** ** Episodes that change nothing

    With a learning rate of zero every update returns zero, so every
    cumulative delta recorded is zero. *)

Lemma update_delta (a a' : Agent) (s : list Z) (x : nat) (s' : list Z) (r delta : Q) :
  update a s x s' r = Ok (delta, a') -> learning_rate a == 0 -> delta == 0.
Proof.
  unfold update. intros E Hl.
  destruct (read (q_table a) s x) as [q | |] eqn:Er; cbn [bind] in E; try discriminate E.
  destruct (view (q_table a) s') as [[shp row] | |] eqn:Ev;
    cbn [bind] in E; try discriminate E.
  destruct (Np.max row) as [m | |] eqn:Em; cbn [bind] in E; try discriminate E.
  cbv zeta in E.
  destruct (write (q_table a) s x _) as [t' | |] eqn:Ew;
    cbn [bind] in E; try discriminate E.
  destruct (read t' s x) as [q' | |] eqn:Er'; cbn [bind] in E; try discriminate E.
  inversion E; subst; clear E.
  unfold read in Er.
  destruct (cell (q_table a) s x) as [k | |] eqn:Ec; cbn [bind] in Er; try discriminate Er.
  apply lookup_Ok in Er.
  destruct (write_read (q_table a) s x k q
              (q + learning_rate a * (r + gamma a * m - q)) Ec Er) as [t1 [Ew1 [_ [_ Er1]]]].
  rewrite Ew in Ew1. inversion Ew1; subst t1. rewrite Er' in Er1. inversion Er1; subst q'.
  rewrite Hl. ring.
Qed.

Lemma sum_zero (l : list Q) : Forall (fun d => d == 0) l -> Np.sum l == 0.
Proof.
  unfold Np.sum. assert (G : forall acc, acc == 0 -> Forall (fun d => d == 0) l ->
                              fold_left Qplus l acc == 0).
  { induction l as [|d l IH]; intros acc Hacc Hall; simpl; [exact Hacc|].
    inversion Hall as [|d' l' Hd Hl]; subst. apply IH; [|exact Hl].
    rewrite Hacc, Hd. reflexivity. }
  apply G. reflexivity.
Qed.

Section Still.

Context {Sim : Type} `{Gym Sim}.

Lemma while_not_done_still (fuel i : nat) (s s' : Episode Sim) :
  while_not_done fuel i s = Ok s' ->
  learning_rate (ep_agent s) == 0 -> Forall (fun d => d == 0) (delta_update s) ->
  learning_rate (ep_agent s') == 0 /\ Forall (fun d => d == 0) (delta_update s').
Proof.
  revert s. induction fuel as [|fuel IH]; intros s E Hl Hd; simpl in E; [discriminate E|].
  destruct (loop_body i s) as [[s1 done] | |] eqn:Eb; cbn [bind] in E; try discriminate E.
  assert (H1 : learning_rate (ep_agent s1) == 0 /\ Forall (fun d => d == 0) (delta_update s1)).
  { destruct (loop_body_Ok i s s1 done Eb)
      as [st [a [g [env [raw [reward [env' [st' [delta [agent'
           [_ [_ [_ [_ [_ [_ [_ [Eu ->]]]]]]]]]]]]]]]]]].
    cbn [ep_agent delta_update].
    destruct (update_frame _ _ _ _ _ _ _ Eu) as [_ [_ [_ [_ [_ [_ [_ [Hlr _]]]]]]]].
    split; [rewrite Hlr; exact Hl|].
    apply Forall_app. split; [exact Hd|]. constructor; [|constructor].
    exact (update_delta _ _ _ _ _ _ _ Eu Hl). }
  destruct done.
  - inversion E; subst s'. exact H1.
  - destruct H1 as [Hl1 Hd1]. apply (IH s1 E Hl1 Hd1).
Qed.

Lemma episode_still (fuel i : nat) (t t' : Training Sim) :
  episode fuel i t = Ok t' ->
  learning_rate (t_agent t) == 0 -> Forall (fun d => d == 0) (running_delta t) ->
  learning_rate (t_agent t') == 0 /\ Forall (fun d => d == 0) (running_delta t').
Proof.
  unfold episode. intros E Hl Hd.
  destruct (reset (t_environment t)) as [env raw].
  destruct (set_observation env raw) as [env' | |]; cbn [bind] in E; try discriminate E.
  match type of E with
  | bind (while_not_done fuel i ?s0) _ = _ =>
      destruct (while_not_done fuel i s0) as [s | |] eqn:Ew;
      cbn [bind] in E; try discriminate E;
      destruct (while_not_done_still fuel i s0 s Ew) as [Hl' Hd']
  end.
  - exact Hl.
  - constructor.
  - inversion E; subst t'; clear E. cbn [t_agent running_delta].
    split; [exact Hl'|]. apply Forall_app. split; [exact Hd|].
    constructor; [apply sum_zero; exact Hd' | constructor].
Qed.

Lemma for_episodes_still (fuel n : nat) (indices : list nat) (t t' : Training Sim) :
  for_episodes fuel n indices t = Ok t' ->
  learning_rate (t_agent t) == 0 -> Forall (fun d => d == 0) (running_delta t) ->
  Forall (fun d => d == 0) (running_delta t').
Proof.
  revert t. induction indices as [|i indices IH]; intros t E Hl Hd; simpl in E.
  - inversion E; subst. exact Hd.
  - destruct (episode fuel i t) as [t1 | |] eqn:Ee; cbn [bind] in E; try discriminate E.
    destruct (episode_still fuel i t t1 Ee Hl Hd) as [Hl1 Hd1].
    destruct (early_stop n i (running_accuracy t1) (running_delta t1)).
    + inversion E; subst. exact Hd1.
    + apply (IH t1 E Hl1 Hd1).
Qed.

Lemma main_still (n : nat) (gm : Q) (g : Rng) (fuel : nat) (t : Training Sim) :
  main n 0 gm g fuel = Ok t -> Forall (fun d => d == 0) (running_delta t).
Proof.
  unfold main. intro E.
  destruct (MyEnvironment_init "CartPole-v1") as [env | |]; cbn [bind] in E;
    try discriminate E.
  destruct (reset env) as [env1 raw].
  destruct (get_observation_space_length env1) as [shp | |]; cbn [bind] in E;
    try discriminate E.
  pose proof (Agent_init_table (gym_action_n (environment env1))
                (get_action_space_length env1) shp n 0 gm g) as Hinit.
  destruct (Agent_init (gym_action_n (environment env1)) (get_action_space_length env1)
              shp n 0 gm g) as [agent g'].
  cbn [fst] in Hinit. destruct Hinit as [_ [_ [_ [_ [Hlr _]]]]].
  apply for_episodes_still in E; [exact E | |].
  - cbn [t_agent]. rewrite Hlr. reflexivity.
  - constructor.
Qed.

End Still.

(** ** Instances on the one-step simulator *)

Lemma cartpole_init : @MyEnvironment_init nat Examples.one_step_gym "CartPole-v1"
                      = Ok Examples.cartpole_env.
Proof. reflexivity. Qed.

(** The adapter discretizes the observation (-5, 5, 0, 0.3). *)
Lemma discretization_index_range_witness :
  exists t,
    @set_observation nat Examples.one_step_gym Examples.cartpole_env [-5; 5; 0; 0.3]
      = Ok (with_observation Examples.cartpole_env (ObsIndex t)) /\
    length t = 4%nat.
Proof.
  destruct (@discretization_index_range nat Examples.one_step_gym "CartPole-v1"
              Examples.cartpole_env [-5; 5; 0; 0.3])
    as [_ [bs [t [_ [Es [Hlen _]]]]]].
  - reflexivity.
  - exact cartpole_init.
  - simpl. lia.
  - simpl. lia.
  - exists t. split; [exact Es | exact Hlen].
Defined.

(** C2 as stated fails: -5 is below the lowest edge of the first dimension
    and gets the index -1, not 0; 5 is above the highest edge of the second
    and gets 19, not [n_bins = 20]. *)
Lemma discretization_counterexample :
  n_bins Examples.cartpole_env = Some 20%nat /\
  -5 < hd 0 (Np.linspace (-4.8) 4.8 20) /\
  last (Np.linspace (-4) 4 20) 0 <= 5 /\
  @set_observation nat Examples.one_step_gym Examples.cartpole_env [-5; 5; 0; 0.3]
    = Ok (with_observation Examples.cartpole_env (ObsIndex [-1; 19; 9; 10]%Z)).
Proof.
  repeat split; vm_compute; try reflexivity; discriminate.
Qed.

(** The constructor accepts the name of another family. *)
Lemma unsupported_family_constructed_witness :
  exists e,
    @MyEnvironment_init nat Examples.one_step_gym "MountainCar-v0" = Ok e /\
    n_bins e = None /\ bins e = None /\
    @set_observation nat Examples.one_step_gym e [0.5; 0] = Ok (with_observation e (ObsRaw [0.5; 0])).
Proof.
  destruct (@unsupported_family_constructed nat Examples.one_step_gym "MountainCar-v0")
    as [_ Hok]; [reflexivity|].
  destruct (Hok 0%nat) as [e [Ei [_ [_ [Hn [Hb [Hset _]]]]]]]; [reflexivity|].
  exists e. repeat split; auto.
Defined.

(** C5 as stated fails: 'MountainCar-v0' does not contain 'CartPole', and
    the constructor returns an adapter without discretization. *)
Lemma unsupported_family_counterexample :
  is_cartpole "MountainCar-v0" = false /\
  @MyEnvironment_init nat Examples.one_step_gym "MountainCar-v0" =
    Ok {| environment_name := "MountainCar-v0"; environment := 0%nat;
          action := None; observation := ObsNone; n_bins := None; bins := None |}.
Proof. split; reflexivity. Qed.

(** The table of the CartPole agent over the one-step simulator. *)
Lemma q_table_shape_invariant_witness :
  @get_observation_space_length nat Examples.one_step_gym Examples.cartpole_env
    = Ok [21; 21; 21; 21]%nat /\
  shape (q_table (fst (Agent_init 2 2 [21; 21; 21; 21]%nat 10 0.1 0.95 Examples.still)))
    = [21; 21; 21; 21; 2]%nat.
Proof.
  destruct (@q_table_shape_invariant nat Examples.one_step_gym "CartPole-v1"
              Examples.cartpole_env 10 0.1 0.95 Examples.still)
    as [Hshape [_ Htable]].
  - reflexivity.
  - exact cartpole_init.
  - reflexivity.
  - split; [exact Hshape|]. cbv zeta in Htable. destruct Htable as [Hs _]. exact Hs.
Defined.

(** Episode 3 of 10. *)
Lemma safety_bound_unreachable_witness :
  In 3%nat (range 10) /\ safety_bound 10 3 = false.
Proof.
  assert (Hin : In 3%nat (range 10)) by (simpl; tauto).
  split; [exact Hin|].
  exact (proj1 (safety_bound_unreachable 10 3 [] [] Hin)).
Defined.

(** C3 at a failing input.  Eight episodes on the one-step simulator with
    a learning rate of zero: every step has a positive reward and every
    cumulative delta is zero, the situation in which the claim has the loop
    stop after [running_length = 5] episodes.  [main] records all eight:
    each accuracy recorded is 1/2, the one success of the episode over a
    count of two, so the test [accuracy == 1.0] of the [break] fails at
    every index. *)
Theorem perfect_run_is_not_stopped :
  exists t,
    @main nat Examples.one_step_gym 8 0 0.95 Examples.still 1 = Ok t /\
    Forall (Forall (fun reward => 0 < reward)) (reward_log t) /\
    Forall (fun delta => Qabs delta < 0.0001) (running_delta t) /\
    Forall (fun accuracy => accuracy == 0.5) (running_accuracy t) /\
    length (running_accuracy t) = 8%nat /\
    running_length = 5%nat.
Proof.
  destruct (main_total (fun _ : nat => 0%nat) 1 one_step_bounded 8 0 0.95 Examples.still)
    as [t [Et [Hrec [Hla _]]]].
  exists t. split; [exact Et|].
  split; [|split; [|split; [|split; [exact Hla | reflexivity]]]].
  - unfold recorded in Hrec. clear Hla Et.
    induction Hrec as [|rs acc logs accs [_ [Hem _]] _ IH]; constructor; [|exact IH].
    eapply Forall_impl; [|exact Hem].
    intros r Hr. apply one_step_emitted in Hr. subst r. reflexivity.
  - eapply Forall_impl; [|exact (main_still 8 0.95 Examples.still 1 t Et)].
    intros d Hd. cbv beta in Hd. rewrite Hd. reflexivity.
  - unfold recorded in Hrec. clear Hla Et.
    induction Hrec as [|rs acc logs accs [Hlen [Hem Hacc]] _ IH]; constructor; [|exact IH].
    destruct rs as [|r [|r' rs]]; simpl in Hlen; try lia.
    inversion Hem as [|r0 l0 Hr _]; subst. apply one_step_emitted in Hr. subst r.
    reflexivity.
Qed.

(** * Further properties *)

(** ** [plot_statistics] *)

(** The step [round(n_episodes / 20)]: zero up to ten episodes (10/20 is a
    half and goes to the even 0), at least one from eleven on, and one up
    to 29. *)
Lemma round_step (n : nat) :
  let step := Plot.round (inject_Z (Z.of_nat n) / 20) in
  ((n <= 10)%nat -> step = 0%Z) /\
  ((11 <= n)%nat -> (1 <= step)%Z) /\
  ((11 <= n <= 29)%nat -> step = 1%Z).
Proof.
  intro step. unfold step, Plot.round.
  set (x := inject_Z (Z.of_nat n) / 20).
  assert (Hf : Qfloor x = (Z.of_nat n / 20)%Z).
  { unfold x. change 20 with (inject_Z 20). symmetry. apply Zdiv_Qdiv. }
  assert (Hx : 20 * x == inject_Z (Z.of_nat n)) by (unfold x; field).
  rewrite Hf.
  assert (Hcases : (n <= 10)%nat /\ (Z.of_nat n / 20 = 0)%Z \/
                   (11 <= n <= 19)%nat /\ (Z.of_nat n / 20 = 0)%Z \/
                   (20 <= n <= 29)%nat /\ (Z.of_nat n / 20 = 1)%Z \/
                   (30 <= n)%nat /\ (1 <= Z.of_nat n / 20)%Z).
  { destruct (Nat.le_gt_cases n 10) as [H10 | H10].
    - left. split; [exact H10|]. apply Z.div_small. lia.
    - destruct (Nat.le_gt_cases n 19) as [H19 | H19].
      + right. left. split; [lia|]. apply Z.div_small. lia.
      + destruct (Nat.le_gt_cases n 29) as [H29 | H29].
        * right. right. left. split; [lia|]. symmetry.
          apply (Z.div_unique_pos _ _ 1 (Z.of_nat n - 20)); lia.
        * right. right. right. split; [lia|].
          apply Z.div_le_lower_bound; lia. }
  assert (Hlo : forall k : Z, (k <= Z.of_nat n)%Z -> inject_Z k <= 20 * x)
    by (intros k Hk; rewrite Hx, <- Zle_Qle; exact Hk).
  assert (Hhi : forall k : Z, (Z.of_nat n <= k)%Z -> 20 * x <= inject_Z k)
    by (intros k Hk; rewrite Hx, <- Zle_Qle; exact Hk).
  destruct Hcases as [[Hn Hq] | [[Hn Hq] | [[Hn Hq] | [Hn Hq]]]]; rewrite ?Hq.
  - pose proof (Hhi 10%Z ltac:(lia)) as H1. simpl in H1.
    destruct (Qcompare_spec (x - inject_Z 0) (1 # 2)) as [He | Hl | Hg];
      repeat split; intros; try lia; try reflexivity.
    all: exfalso; unfold inject_Z in *; lra.
  - pose proof (Hlo 11%Z ltac:(lia)) as H1. simpl in H1.
    destruct (Qcompare_spec (x - inject_Z 0) (1 # 2)) as [He | Hl | Hg];
      repeat split; intros; try lia; try reflexivity.
    all: exfalso; unfold inject_Z in *; lra.
  - pose proof (Hhi 29%Z ltac:(lia)) as H1. simpl in H1.
    destruct (Qcompare_spec (x - inject_Z 1) (1 # 2)) as [He | Hl | Hg];
      repeat split; intros; try lia; try reflexivity.
    all: exfalso; unfold inject_Z in *; lra.
  - destruct (Qcompare (x - inject_Z (Z.of_nat n / 20)) (1 # 2));
      [destruct (Z.even (Z.of_nat n / 20)) | |]; repeat split; intros; lia.
Qed.

Lemma ceil_div (a s : Z) :
  (0 <= a)%Z -> (1 <= s)%Z -> (- ((- (a + 1)) / s) = a / s + 1)%Z.
Proof.
  intros Ha Hs.
  pose proof (Z.div_mod a s ltac:(lia)) as Hdm.
  pose proof (Z.mod_pos_bound a s ltac:(lia)) as Hr.
  assert (E : ((- (a + 1)) / s = - (a / s + 1))%Z).
  { symmetry. apply (Z.div_unique_pos _ _ _ (s - a mod s - 1)); lia. }
  rewrite E. lia.
Qed.

Lemma div_pred (a s : Z) :
  (1 <= a)%Z -> (1 <= s)%Z ->
  ((a - 1) / s = if (a mod s =? 0)%Z then a / s - 1 else a / s)%Z.
Proof.
  intros Ha Hs.
  pose proof (Z.div_mod a s ltac:(lia)) as Hdm.
  pose proof (Z.mod_pos_bound a s ltac:(lia)) as Hr.
  destruct (a mod s =? 0)%Z eqn:E.
  - apply Z.eqb_eq in E. symmetry.
    apply (Z.div_unique_pos _ _ _ (s - 1)); lia.
  - apply Z.eqb_neq in E. symmetry.
    apply (Z.div_unique_pos _ _ _ (a mod s - 1)); lia.
Qed.

Lemma arange_from_one (n s : Z) :
  (2 <= n)%Z -> (1 <= s)%Z ->
  Plot.arange 1 n s =
    inr (map (fun k => (1 + Z.of_nat k * s)%Z) (seq 0 (Z.to_nat ((n - 2) / s + 1)))).
Proof.
  intros Hn Hs. unfold Plot.arange.
  destruct (s =? 0)%Z eqn:E; [apply Z.eqb_eq in E; lia|].
  replace (1 - n)%Z with (- ((n - 2) + 1))%Z by lia.
  rewrite ceil_div by lia. reflexivity.
Qed.

Lemma flat_map_singletons {A B : Type} (f : A -> list B) (g : A -> B) (l : list A) :
  (forall a, In a l -> f a = [g a]) -> flat_map f l = map g l.
Proof.
  induction l as [|a l IH]; intro Hf; simpl; [reflexivity|].
  rewrite (Hf a) by (left; reflexivity). simpl. f_equal.
  apply IH. intros b Hb. apply Hf. right. exact Hb.
Qed.

(** [l[1:-1:s]] on a list of at least three entries: the entries at
    positions [1, 1 + s, 1 + 2s, ...] below the last one. *)
Lemma slice_inner {A : Type} (l : list A) (s : Z) (d : A) :
  (3 <= length l)%nat -> (1 <= s)%Z ->
  Plot.slice l 1 (-1) s =
    inr (map (fun k => nth (Z.to_nat (1 + Z.of_nat k * s)) l d)
             (seq 0 (Z.to_nat ((Z.of_nat (length l) - 3) / s + 1)))).
Proof.
  intros Hl Hs. unfold Plot.slice.
  destruct (s =? 0)%Z eqn:E; [apply Z.eqb_eq in E; lia|].
  set (len := Z.of_nat (length l)).
  assert (Hlen : (3 <= len)%Z) by (unfold len; lia).
  assert (Hnat : length l = Z.to_nat len) by (unfold len; lia).
  clearbody len.
  assert (Hlo : Plot.adjust len s 1 = 1%Z).
  { unfold Plot.adjust. destruct (s <? 0)%Z eqn:E1; [apply Z.ltb_lt in E1; lia|].
    simpl. apply Z.min_l. lia. }
  assert (Hhi : Plot.adjust len s (-1) = (len - 1)%Z).
  { unfold Plot.adjust. destruct (s <? 0)%Z eqn:E1; [apply Z.ltb_lt in E1; lia|].
    change (-1 <? 0)%Z with true. cbv iota. rewrite Z.max_l by lia. lia. }
  rewrite Hlo, Hhi. unfold Plot.slice_count.
  assert (E2 : (0 <? s)%Z = true) by (apply Z.ltb_lt; lia).
  assert (E3 : (1 <? len - 1)%Z = true) by (apply Z.ltb_lt; lia).
  rewrite E2, E3. replace (len - 1 - 1 - 1)%Z with (len - 3)%Z by lia.
  f_equal. apply flat_map_singletons.
  intros k Hk. apply in_seq in Hk.
  assert (Hq : (0 <= (len - 3) / s)%Z) by (apply Z.div_pos; lia).
  assert (Hmul : (s * ((len - 3) / s) <= len - 3)%Z) by (apply Z.mul_div_le; lia).
  assert (Hidx : (Z.to_nat (1 + Z.of_nat k * s) < length l)%nat) by (rewrite Hnat; nia).
  rewrite (nth_error_nth' l d Hidx). reflexivity.
Qed.

Lemma combine_maps {A B C : Type} (f : A -> B) (g : A -> C) (l : list A) :
  combine (map f l) (map g l) = map (fun a => (f a, g a)) l.
Proof.
  induction l as [|a l IH]; simpl; [reflexivity|]. rewrite IH. reflexivity.
Qed.

(** What [plot_statistics] does from eleven episodes on, given one entry per
    episode in either list. *)
Lemma plot_statistics_cases (n : nat) (ra rd : list Q) :
  (11 <= n)%nat -> length ra = n -> length rd = n ->
  let s := Plot.round (inject_Z (Z.of_nat n) / 20) in
  let a := (Z.of_nat n - 2)%Z in
  let panel l :=
    map (fun k => ((1 + Z.of_nat k * s)%Z, nth (Z.to_nat (1 + Z.of_nat k * s)) l 0))
        (seq 0 (Z.to_nat (a / s + 1))) in
  ((a mod s = 0)%Z /\ Plot.plot_statistics n ra rd = inl Plot.ShapeMismatch) \/
  ((a mod s <> 0)%Z /\ Plot.plot_statistics n ra rd = inr (panel ra, panel rd)).
Proof.
  intros Hn Hra Hrd s a panel.
  destruct (round_step n) as [_ [Hs _]]. specialize (Hs Hn). fold s in Hs.
  assert (Ha : (9 <= a)%Z) by (unfold a; lia).
  assert (Hq : (0 <= a / s)%Z) by (apply Z.div_pos; lia).
  unfold Plot.plot_statistics. fold s.
  rewrite (arange_from_one (Z.of_nat n) s) by lia. fold a.
  rewrite (slice_inner ra s 0), (slice_inner rd s 0) by lia.
  rewrite Hra, Hrd. replace (Z.of_nat n - 3)%Z with (a - 1)%Z by (unfold a; lia).
  rewrite (div_pred a s) by lia.
  cbn [Plot.and_then]. unfold Plot.plot. rewrite !length_map, !length_seq.
  destruct (a mod s =? 0)%Z eqn:E; cbv iota.
  - left. apply Z.eqb_eq in E. split; [exact E|].
    assert (Hne : (Z.to_nat (a / s + 1) =? Z.to_nat (a / s - 1 + 1))%nat = false)
      by (apply Nat.eqb_neq; lia).
    rewrite Hne. reflexivity.
  - right. apply Z.eqb_neq in E. split; [exact E|].
    rewrite Nat.eqb_refl. cbn [Plot.and_then].
    rewrite !combine_maps. reflexivity.
Qed.

(** X1.  [plot_statistics] fails on the step of [np.arange] being zero
    exactly when there are at most ten episodes, whatever the lists. *)
Theorem plot_statistics_zero_step (n : nat) (ra rd : list Q) :
  Plot.plot_statistics n ra rd = inl Plot.ZeroDivisionError <-> (n <= 10)%nat.
Proof.
  split.
  - intro E. destruct (Nat.le_gt_cases n 10) as [Hle | Hgt]; [exact Hle|]. exfalso.
    destruct (round_step n) as [_ [Hs _]]. specialize (Hs Hgt).
    unfold Plot.plot_statistics in E.
    rewrite (arange_from_one (Z.of_nat n) _) in E by lia.
    cbn [Plot.and_then] in E.
    unfold Plot.slice, Plot.plot in E.
    destruct (Plot.round (inject_Z (Z.of_nat n) / 20) =? 0)%Z;
      cbn [Plot.and_then] in E; [discriminate E|].
    repeat match type of E with
           | context [if ?c then _ else _] =>
               destruct c; cbn [Plot.and_then] in E; try discriminate E
           end.
  - intro Hle. destruct (round_step n) as [Hs _]. specialize (Hs Hle).
    unfold Plot.plot_statistics. rewrite Hs. reflexivity.
Qed.

(** X2.  From eleven episodes on, with one entry per episode in either list
    (as [main] leaves them), [plot_statistics] fails on mismatched lengths
    exactly when the step divides [n_episodes - 2]: the abscissa then has
    one point more than the slices.  This is so for every count from 11 to
    29, where the step is 1. *)
Theorem plot_statistics_shape_mismatch (n : nat) (ra rd : list Q) :
  (11 <= n)%nat -> length ra = n -> length rd = n ->
  let s := Plot.round (inject_Z (Z.of_nat n) / 20) in
  (Plot.plot_statistics n ra rd = inl Plot.ShapeMismatch
   <-> ((Z.of_nat n - 2) mod s = 0)%Z) /\
  ((n <= 29)%nat -> Plot.plot_statistics n ra rd = inl Plot.ShapeMismatch).
Proof.
  intros Hn Hra Hrd s.
  assert (Hiff : Plot.plot_statistics n ra rd = inl Plot.ShapeMismatch
                 <-> ((Z.of_nat n - 2) mod s = 0)%Z).
  { destruct (plot_statistics_cases n ra rd Hn Hra Hrd) as [[Hm E] | [Hm E]];
      fold s in Hm; rewrite E; split; intro H0; auto; try discriminate H0.
    contradiction. }
  split; [exact Hiff|].
  intro H29. apply Hiff. destruct (round_step n) as [_ [_ H1]].
  unfold s. rewrite H1 by lia. apply Z.mod_1_r.
Qed.

(** Twelve episodes: eleven abscissae against ten values. *)
Lemma plot_statistics_shape_mismatch_witness :
  Plot.plot_statistics 12 (repeat 0.5 12) (repeat 0 12) = inl Plot.ShapeMismatch.
Proof.
  destruct (plot_statistics_shape_mismatch 12 (repeat 0.5 12) (repeat 0 12))
    as [_ H29]; [lia | reflexivity | reflexivity |].
  apply H29. lia.
Defined.

(** X3.  When [plot_statistics] succeeds, each panel pairs the abscissa
    [1 + k * step] with the entry of the list at that very position, for
    [k] up to [(n_episodes - 2) / step]: every point sits at the index of
    its episode, and neither the first nor the last episode is drawn. *)
Theorem plot_statistics_points (n : nat) (ra rd : list Q) (p1 p2 : list (Z * Q)) :
  (11 <= n)%nat -> length ra = n -> length rd = n ->
  Plot.plot_statistics n ra rd = inr (p1, p2) ->
  let s := Plot.round (inject_Z (Z.of_nat n) / 20) in
  (1 <= s)%Z /\
  length p1 = Z.to_nat ((Z.of_nat n - 2) / s + 1) /\ length p2 = length p1 /\
  forall k x y1 y2,
    nth_error p1 k = Some (x, y1) -> nth_error p2 k = Some (x, y2) ->
    x = (1 + Z.of_nat k * s)%Z /\ (1 <= x < Z.of_nat n - 1)%Z /\
    nth_error ra (Z.to_nat x) = Some y1 /\ nth_error rd (Z.to_nat x) = Some y2.
Proof.
  intros Hn Hra Hrd E s.
  destruct (round_step n) as [_ [Hs _]]. specialize (Hs Hn). fold s in Hs.
  destruct (plot_statistics_cases n ra rd Hn Hra Hrd) as [[_ E'] | [Hm E']];
    rewrite E in E'; [discriminate E'|].
  fold s in Hm, E'.
  match type of E' with
  | _ = inr (?X, ?Y) =>
      assert (E1 : p1 = X) by congruence; assert (E2 : p2 = Y) by congruence
  end.
  clear E E'. subst p1 p2.
  set (a := (Z.of_nat n - 2)%Z) in *.
  assert (Ha : (9 <= a)%Z) by (unfold a; lia).
  assert (Hq : (0 <= a / s)%Z) by (apply Z.div_pos; lia).
  assert (Hmul : (s * (a / s) < a)%Z).
  { pose proof (Z.div_mod a s ltac:(lia)) as Hdm.
    pose proof (Z.mod_pos_bound a s ltac:(lia)) as Hr. lia. }
  split; [exact Hs|]. rewrite !length_map, !length_seq.
  split; [reflexivity|]. split; [reflexivity|].
  intros k x y1 y2 Ek1 Ek2.
  rewrite nth_error_map, nth_error_seq in Ek1, Ek2.
  destruct (k <? Z.to_nat (a / s + 1))%nat eqn:Hk; [|discriminate Ek1].
  apply Nat.ltb_lt in Hk. cbn [option_map Nat.add] in Ek1, Ek2.
  assert (Ex : x = (1 + Z.of_nat k * s)%Z) by congruence.
  assert (Ey1 : y1 = nth (Z.to_nat (1 + Z.of_nat k * s)) ra 0) by congruence.
  assert (Ey2 : y2 = nth (Z.to_nat (1 + Z.of_nat k * s)) rd 0) by congruence.
  clear Ek1 Ek2.
  assert (Hk' : (0 <= Z.of_nat k <= a / s)%Z) by lia.
  assert (Hx : (1 <= x <= a)%Z).
  { assert (Hup : (Z.of_nat k * s <= a / s * s)%Z)
      by (apply Z.mul_le_mono_nonneg_r; lia).
    assert (Hnn : (0 <= Z.of_nat k * s)%Z) by (apply Z.mul_nonneg_nonneg; lia).
    rewrite (Z.mul_comm (a / s) s) in Hup. lia. }
  rewrite <- Ex in Ey1, Ey2.
  split; [exact Ex|]. split; [lia|].
  split; [rewrite Ey1 | rewrite Ey2]; apply nth_error_nth'; lia.
Qed.

(** Fifteen hundred episodes: the step is 75, which does not divide 1498. *)
Lemma plot_statistics_points_witness :
  exists p1 p2,
    Plot.plot_statistics 1500 (repeat 0.5 1500) (repeat 0 1500) = inr (p1, p2) /\
    length p1 = 20%nat /\ nth_error p1 2 = Some (151%Z, 0.5).
Proof.
  assert (E : exists p1 p2,
             Plot.plot_statistics 1500 (repeat 0.5 1500) (repeat 0 1500) = inr (p1, p2)).
  { vm_compute. eexists. eexists. reflexivity. }
  destruct E as [p1 [p2 E]].
  destruct (plot_statistics_points 1500 (repeat 0.5 1500) (repeat 0 1500) p1 p2)
    as [_ [Hlen _]]; try exact E; try (rewrite repeat_length; reflexivity); try lia.
  exists p1, p2. split; [exact E|]. split; [exact Hlen|].
  vm_compute in E. inversion E. reflexivity.
Defined.

(** ** [main] as a whole *)

Section Whole.

Context {Sim : Type} `{Gym Sim}.

(** X4.  The [break] of the training loop never fires: whenever [main]
    returns, it has recorded exactly [n_episodes] accuracies and
    [n_episodes] cumulative deltas. *)
Theorem main_runs_every_episode
    (n : nat) (lr gm : Q) (g : Rng) (fuel : nat) (t : Training Sim) :
  main n lr gm g fuel = Ok t ->
  length (running_accuracy t) = n /\ length (running_delta t) = n /\
  length (reward_log t) = n.
Proof.
  intro E. destruct (main_recorded n lr gm g fuel t E) as [Hrec [Ha Hd]].
  split; [exact Ha|]. split; [exact Hd|].
  unfold recorded in Hrec. rewrite (Forall2_length Hrec). exact Ha.
Qed.

(** X5.  Every accuracy that [main] records is the number of positive
    rewards of its episode over the number of its steps plus one; it is
    therefore at least 0 and strictly below 1, and every episode has at
    least one step. *)
Theorem recorded_accuracy_below_one
    (n : nat) (lr gm : Q) (g : Rng) (fuel : nat) (t : Training Sim) :
  main n lr gm g fuel = Ok t ->
  Forall2 (fun rs acc =>
             (1 <= length rs <= fuel)%nat /\
             acc = ratio (successes rs) (1 + length rs) /\
             0 <= acc /\ acc < 1)
          (reward_log t) (running_accuracy t).
Proof.
  intro E. destruct (main_recorded n lr gm g fuel t E) as [Hrec _].
  unfold recorded in Hrec.
  induction Hrec as [|rs acc logs accs [Hlen [_ Hacc]] _ IH]; constructor; [|exact IH].
  split; [exact Hlen|]. split; [exact Hacc|]. subst acc. split.
  - unfold ratio. apply Qle_shift_div_l.
    + change 0 with (inject_Z 0). rewrite <- Zlt_Qlt. lia.
    + rewrite Qmult_0_l. change 0 with (inject_Z 0). rewrite <- Zle_Qle. lia.
  - apply ratio_below_one.
Qed.

(** X6.  On a simulator of CartPole whose episodes end within the fuel,
    [main] returns: no call raises, for any seed, episode count, learning
    rate and discount. *)
Theorem main_returns
    (left : Sim -> nat) (fuel n : nat) (lr gm : Q) (g : Rng) :
  Bounded left fuel -> exists t, main n lr gm g fuel = Ok t.
Proof.
  intro Hb. destruct (main_total left fuel Hb n lr gm g) as [t [Et _]].
  exists t. exact Et.
Qed.

(** X7.  The script's last call: after a training that returned,
    [plot_statistics] on the recorded lists fails on a zero step up to ten
    episodes, fails on mismatched lengths from 11 to 29 episodes and
    whenever the step divides [n_episodes - 2], and otherwise draws
    [(n_episodes - 2) / step + 1] points per panel. *)
Theorem plot_after_training
    (n : nat) (lr gm : Q) (g : Rng) (fuel : nat) (t : Training Sim) :
  main n lr gm g fuel = Ok t ->
  let s := Plot.round (inject_Z (Z.of_nat n) / 20) in
  let plotted := Plot.plot_statistics n (running_accuracy t) (running_delta t) in
  ((n <= 10)%nat -> plotted = inl Plot.ZeroDivisionError) /\
  ((11 <= n <= 29)%nat -> plotted = inl Plot.ShapeMismatch) /\
  ((11 <= n)%nat -> ((Z.of_nat n - 2) mod s = 0)%Z -> plotted = inl Plot.ShapeMismatch) /\
  ((11 <= n)%nat -> ((Z.of_nat n - 2) mod s <> 0)%Z ->
   exists p1 p2, plotted = inr (p1, p2) /\
                 length p1 = Z.to_nat ((Z.of_nat n - 2) / s + 1) /\
                 length p2 = length p1).
Proof.
  intros E s plotted.
  destruct (main_recorded n lr gm g fuel t E) as [_ [Ha Hd]].
  destruct (round_step n) as [H0 [_ H1]]. fold s in H0, H1.
  assert (Hcases : (11 <= n)%nat ->
            ((Z.of_nat n - 2) mod s = 0)%Z /\ plotted = inl Plot.ShapeMismatch \/
            ((Z.of_nat n - 2) mod s <> 0)%Z /\
            exists p1 p2, plotted = inr (p1, p2) /\
                          length p1 = Z.to_nat ((Z.of_nat n - 2) / s + 1) /\
                          length p2 = length p1).
  { intro Hn.
    destruct (plot_statistics_cases n (running_accuracy t) (running_delta t) Hn Ha Hd)
      as [[Hm Ep] | [Hm Ep]]; fold s in Hm, Ep; [left; auto|].
    right. split; [exact Hm|]. eexists. eexists. split; [exact Ep|].
    rewrite !length_map, !length_seq. auto. }
  split; [|split; [|split]].
  - intro Hn. unfold plotted, Plot.plot_statistics. fold s. rewrite (H0 Hn). reflexivity.
  - intros [Hn H29]. destruct (Hcases Hn) as [[_ Ep] | [Hm _]]; [exact Ep|].
    exfalso. apply Hm. rewrite H1 by lia. apply Z.mod_1_r.
  - intros Hn Hm. destruct (Hcases Hn) as [[_ Ep] | [Hm' _]]; [exact Ep | contradiction].
  - intros Hn Hm. destruct (Hcases Hn) as [[Hm' _] | [_ Hex]]; [contradiction | exact Hex].
Qed.

End Whole.

(** Three episodes on the one-step simulator. *)
Lemma three_episodes :
  exists t, @main nat Examples.one_step_gym 3 0.1 0.95 Examples.still 1 = Ok t.
Proof.
  destruct (main_total (fun _ : nat => 0%nat) 1 one_step_bounded 3 0.1 0.95 Examples.still)
    as [t [Et _]].
  exists t. exact Et.
Qed.

Lemma main_runs_every_episode_witness :
  exists t,
    @main nat Examples.one_step_gym 3 0.1 0.95 Examples.still 1 = Ok t /\
    length (running_accuracy t) = 3%nat.
Proof.
  destruct three_episodes as [t Et]. exists t. split; [exact Et|].
  exact (proj1 (main_runs_every_episode 3 0.1 0.95 Examples.still 1 t Et)).
Defined.

Lemma recorded_accuracy_below_one_witness :
  exists t,
    @main nat Examples.one_step_gym 3 0.1 0.95 Examples.still 1 = Ok t /\
    Forall (fun acc => acc < 1) (running_accuracy t).
Proof.
  destruct three_episodes as [t Et]. exists t. split; [exact Et|].
  pose proof (recorded_accuracy_below_one 3 0.1 0.95 Examples.still 1 t Et) as Hrec.
  induction Hrec as [|rs acc logs accs [_ [_ [_ Hlt]]] _ IH]; constructor; assumption.
Defined.

Lemma main_returns_witness :
  exists t, @main nat Examples.one_step_gym 100 0.1 0.95 Examples.still 1 = Ok t.
Proof.
  exact (main_returns (fun _ : nat => 0%nat) 1 100 0.1 0.95 Examples.still
           one_step_bounded).
Defined.

Lemma plot_after_training_witness :
  exists t,
    @main nat Examples.one_step_gym 3 0.1 0.95 Examples.still 1 = Ok t /\
    Plot.plot_statistics 3 (running_accuracy t) (running_delta t)
      = inl Plot.ZeroDivisionError.
Proof.
  destruct three_episodes as [t Et]. exists t. split; [exact Et|].
  destruct (plot_after_training 3 0.1 0.95 Examples.still 1 t Et) as [H0 _].
  apply H0. lia.
Defined.

(** ** Indices out of range *)

Lemma norm_index_cases (d : nat) (i : Z) :
  (exists k, norm_index d i = Ok k /\ (- Z.of_nat d <= i < Z.of_nat d)%Z) \/
  (norm_index d i = Raise IndexError /\ ~ (- Z.of_nat d <= i < Z.of_nat d)%Z).
Proof.
  unfold norm_index.
  destruct ((0 <=? i) && (i <? Z.of_nat d))%Z eqn:E1.
  - left. apply andb_prop in E1 as [H0 H1].
    apply Z.leb_le in H0. apply Z.ltb_lt in H1. eexists. split; [reflexivity | lia].
  - destruct ((- Z.of_nat d <=? i) && (i <? 0))%Z eqn:E2.
    + left. apply andb_prop in E2 as [H0 H1].
      apply Z.leb_le in H0. apply Z.ltb_lt in H1. eexists. split; [reflexivity | lia].
    + right. split; [reflexivity|]. intros [Hlo Hhi].
      apply andb_false_iff in E1. apply andb_false_iff in E2.
      rewrite Z.leb_gt, Z.ltb_ge in E1. rewrite Z.leb_gt, Z.ltb_ge in E2. lia.
Qed.

(** [offset] either returns, the indices then being in range for the axes
    they select, or raises [IndexError]. *)
Lemma offset_cases (shp : list nat) (idx : list Z) :
  (exists o dims rest, offset shp idx = Ok (o, rest) /\
                       shp = dims ++ rest /\ in_range dims idx) \/
  (offset shp idx = Raise IndexError /\
   forall dims rest, shp = dims ++ rest -> ~ in_range dims idx).
Proof.
  revert shp. induction idx as [|i idx IH]; intro shp.
  - left. exists 0%nat, [], shp. split; [destruct shp; reflexivity|].
    split; [reflexivity | constructor].
  - destruct shp as [|d shp].
    + right. split; [reflexivity|]. intros dims rest Hs Hr.
      destruct dims; [inversion Hr | discriminate Hs].
    + simpl. destruct (norm_index_cases d i) as [[k [Ek Hk]] | [Ek Hk]]; rewrite Ek;
        cbn [bind].
      * destruct (IH shp) as [[o [dims [rest [Eo [Hs Hr]]]]] | [Eo Hno]]; rewrite Eo;
          cbn [bind].
        -- left. exists (k * size shp + o)%nat, (d :: dims), rest.
           repeat split; [rewrite Hs; reflexivity | constructor; assumption].
        -- right. split; [reflexivity|]. intros dims rest Hs Hr.
           inversion Hr as [|d' i' dims' idx' Hd Hr' E1 E2]; subst.
           inversion Hs; subst. apply (Hno dims' rest); auto.
      * right. split; [reflexivity|]. intros dims rest Hs Hr.
        inversion Hr as [|d' i' dims' idx' Hd Hr' E1 E2]; subst.
        inversion Hs; subst. contradiction.
Qed.

Lemma in_range_length (dims : list nat) (idx : list Z) :
  in_range dims idx -> length dims = length idx.
Proof. apply Forall2_length. Qed.

Lemma cell_cases (t : ndarray) (dims : list nat) (n : nat) (idx : list Z) (a : nat) :
  shape t = dims ++ [n] ->
  (exists k, cell t idx a = Ok k /\ in_range dims idx /\ (a < n)%nat) \/
  (cell t idx a = Raise IndexError /\ ~ (in_range dims idx /\ (a < n)%nat)).
Proof.
  intro Hs. unfold cell.
  destruct (offset_cases (shape t) idx) as [[o [dims' [rest [Eo [Hs' Hr]]]]] | [Eo Hno]];
    rewrite Eo; cbn [bind].
  - destruct rest as [|n' [|n'' rest]].
    + right. split; [reflexivity|]. intros [Hr' _].
      rewrite Hs, app_nil_r in Hs'. subst dims'.
      apply in_range_length in Hr. apply in_range_length in Hr'.
      rewrite length_app in Hr. simpl in Hr. lia.
    + rewrite Hs in Hs'. apply app_inj_tail in Hs' as [-> ->].
      destruct (a <? n')%nat eqn:Ha.
      * left. apply Nat.ltb_lt in Ha. eexists. repeat split; auto.
      * right. apply Nat.ltb_ge in Ha. split; [reflexivity|]. intros [_ Ha']. lia.
    + right. split; [reflexivity|]. intros [Hr' _].
      apply in_range_length in Hr. apply in_range_length in Hr'.
      assert (El : length (shape t) = length (shape t)) by reflexivity.
      rewrite Hs in El at 1. rewrite Hs' in El. rewrite !length_app in El. simpl in El. lia.
  - right. split; [reflexivity|]. intros [Hr _]. apply (Hno dims [n] Hs Hr).
Qed.

(** X10.  For a state tuple that names every state axis (it is at least
    as long as the state part of the shape; a shorter tuple selects a whole
    sub-array, which numpy accepts and this statement leaves out),
    [update] checks the state and the action before anything else: a
    returning call had every state index within [[-d, d)] of its axis and
    the action below the number of actions, and a call that violates this
    raises [IndexError]. *)
Theorem update_index_error
    (a : Agent) (dims : list nat) (n : nat) (s : list Z) (x : nat) (s' : list Z) (r : Q) :
  shape (q_table a) = dims ++ [n] ->
  (length dims <= length s)%nat ->
  (forall delta a', update a s x s' r = Ok (delta, a') ->
                    in_range dims s /\ (x < n)%nat) /\
  (~ (in_range dims s /\ (x < n)%nat) -> update a s x s' r = Raise IndexError).
Proof.
  intros Hs _. destruct (cell_cases (q_table a) dims n s x Hs) as [[k [Ec Hin]] | [Ec Hout]].
  - split; [intros; exact Hin | intro Hn; contradiction].
  - assert (Eu : update a s x s' r = Raise IndexError)
      by (unfold update, read; rewrite Ec; reflexivity).
    split; [|intros _; exact Eu].
    intros delta a' E. rewrite Eu in E. discriminate E.
Qed.

(** Index 2 on an axis of length 2, and action 2 of 2, each with a state
    tuple of full length. *)
Lemma update_index_error_witness :
  update Examples.small_agent [2%Z] 0 [1%Z] 1 = Raise IndexError /\
  update Examples.small_agent [0%Z] 2 [1%Z] 1 = Raise IndexError.
Proof.
  split.
  - apply (update_index_error Examples.small_agent [2%nat] 2 [2%Z] 0 [1%Z] 1 eq_refl).
    + simpl. lia.
    + intros [Hr _]. inversion Hr as [|d i dims idx Hd _]. lia.
  - apply (update_index_error Examples.small_agent [2%nat] 2 [0%Z] 2 [1%Z] 1 eq_refl).
    + simpl. lia.
    + intros [_ Hx]. lia.
Defined.

(** ** Construction of the agent, continued *)

Lemma Agent_init_draws
    (sp na : nat) (shp : list nat) (n : nat) (lr gm : Q) (g : Rng) :
  (forall k, 0 <= np_stream g k /\ np_stream g k < 1) ->
  Forall (fun q => -2 <= q /\ q < 0) (data (q_table (fst (Agent_init sp na shp n lr gm g)))) /\
  np_pos (snd (Agent_init sp na shp n lr gm g)) = (np_pos g + size (shp ++ [na]))%nat /\
  space_pos (snd (Agent_init sp na shp n lr gm g)) = space_pos g.
Proof.
  intro Hu. unfold Agent_init, Random.uniform_array. cbn [fst snd q_table data np_pos space_pos].
  split; [|split; reflexivity].
  apply Forall_forall. intros q Hq. apply in_map_iff in Hq as [k [<- _]].
  destruct (Hu (np_pos g + k)%nat) as [H0 H1]. split; lra.
Qed.

(** X11.  [Agent.__init__] fills the table with values in [[-2, 0)] when
    numpy's samples lie in [[0, 1)], reading one sample per entry and none
    of the action space's generator. *)
Theorem Agent_init_values
    (sp na : nat) (shp : list nat) (n : nat) (lr gm : Q) (g : Rng) :
  (forall k, 0 <= np_stream g k /\ np_stream g k < 1) ->
  Forall (fun q => -2 <= q /\ q < 0) (data (q_table (fst (Agent_init sp na shp n lr gm g)))) /\
  np_pos (snd (Agent_init sp na shp n lr gm g)) = (np_pos g + size (shp ++ [na]))%nat /\
  space_pos (snd (Agent_init sp na shp n lr gm g)) = space_pos g.
Proof. apply Agent_init_draws. Qed.

Lemma Agent_init_values_witness :
  Forall (fun q => -2 <= q /\ q < 0)
         (data (q_table (fst (Agent_init 2 2 [21; 21; 21; 21]%nat 10 0.1 0.95 Examples.still)))).
Proof.
  apply (Agent_init_values 2 2 [21; 21; 21; 21]%nat 10 0.1 0.95 Examples.still).
  intro k. simpl. split; lra.
Defined.

(** X12.  An agent built for [n] episodes has no epsilon for an episode
    number from [n] on: [act] then raises [IndexError], whatever the state
    and the draw. *)
Theorem act_beyond_schedule
    (sp na : nat) (shp : list nat) (n : nat) (lr gm : Q) (g0 g : Rng)
    (observation : list Z) (episode_number : nat) :
  (n <= episode_number)%nat ->
  act (fst (Agent_init sp na shp n lr gm g0)) g observation episode_number
    = Raise IndexError.
Proof.
  intro Hn.
  destruct (Agent_init_table sp na shp n lr gm g0) as [_ [_ [He _]]].
  unfold act. destruct (Random.uniform 1 0 g) as [u g1].
  rewrite He. unfold lookup.
  assert (E : nth_error (epsilon_schedule n) episode_number = None)
    by (apply nth_error_None; rewrite epsilon_length; exact Hn).
  rewrite E. reflexivity.
Qed.

Lemma act_beyond_schedule_witness :
  act (fst (Agent_init 2 2 [21; 21; 21; 21]%nat 10 0.1 0.95 Examples.still))
      Examples.still [0; 0; 0; 0]%Z 10 = Raise IndexError.
Proof.
  apply (act_beyond_schedule 2 2 [21; 21; 21; 21]%nat 10 0.1 0.95). lia.
Defined.

(** ** The bin edges and the bins *)

Lemma ascending_tail (e : Q) (b : list Q) :
  ascending (e :: b) -> ascending b /\ forall y, In y b -> e < y.
Proof.
  intro H. split.
  - intros i j x y Hij Ei Ej. apply (H (S i) (S j) x y); [lia | exact Ei | exact Ej].
  - intros y Hy. apply In_nth_error in Hy as [j Ej].
    apply (H 0%nat (S j) e y); [lia | reflexivity | exact Ej].
Qed.

Lemma digitize_mono (b : list Q) (x y : Q) :
  x <= y -> (Np.digitize x b <= Np.digitize y b)%nat.
Proof.
  intro Hxy. induction b as [|e b IH]; simpl; [lia|].
  destruct (Qle_bool e x) eqn:Ex.
  - apply Qle_bool_iff in Ex.
    assert (Ey : Qle_bool e y = true) by (apply Qle_bool_iff; lra).
    rewrite Ey. lia.
  - lia.
Qed.

(** On ascending edges the position found is the one between the last
    edge not above the value and the first edge above it. *)
Lemma digitize_between (b : list Q) (x : Q) (k : nat) (lo hi : Q) :
  ascending b ->
  nth_error b k = Some lo -> nth_error b (S k) = Some hi ->
  (Np.digitize x b = S k <-> lo <= x /\ x < hi).
Proof.
  revert k. induction b as [|e b IH]; intros k Hasc Elo Ehi; [destruct k; discriminate|].
  destruct (ascending_tail e b Hasc) as [Hb Hlt]. simpl.
  destruct k as [|k].
  - simpl in Elo, Ehi. inversion Elo; subst e.
    destruct b as [|e' b]; [discriminate|]. simpl in Ehi. inversion Ehi; subst e'.
    destruct (Qle_bool lo x) eqn:E.
    + apply Qle_bool_iff in E. simpl. destruct (Qle_bool hi x) eqn:E'.
      * apply Qle_bool_iff in E'. split; [discriminate | lra].
      * split; [intros _|reflexivity]. split; [exact E|].
        apply Qnot_le_lt. intro Hle. apply Qle_bool_iff in Hle. congruence.
    + split; [discriminate|]. intros [Hle _]. apply Qle_bool_iff in Hle. congruence.
  - simpl in Elo, Ehi. specialize (IH k Hb Elo Ehi).
    assert (He : e < lo) by (apply Hlt; eapply nth_error_In; exact Elo).
    destruct (Qle_bool e x) eqn:E.
    + rewrite <- IH. split; [intro H; inversion H; reflexivity | intro H; rewrite H; reflexivity].
    + split; [discriminate|]. intros [Hle _].
      assert (Hex : Qle_bool e x = true) by (apply Qle_bool_iff; lra). congruence.
Qed.

Lemma some_inj {A : Type} (a b : A) : Some a = Some b -> a = b.
Proof. intro E. congruence. Qed.

(** [np.linspace] from two samples on, between distinct ends, ascends. *)
Lemma linspace_ascending (start stop : Q) (m : nat) :
  start < stop -> ascending (Np.linspace start stop (S (S m))).
Proof.
  intro Hlt.
  set (d := inject_Z (Z.of_nat (S m))).
  set (w := (stop - start) / d).
  assert (Hd : 0 < d) by (unfold d; change 0 with (inject_Z 0); rewrite <- Zlt_Qlt; lia).
  assert (Hwd : w * d == stop - start) by (unfold w; field; lra).
  assert (Hw : 0 < w) by nra.
  assert (Hinj : forall i j : nat, (i < j)%nat ->
            inject_Z (Z.of_nat i) + 1 <= inject_Z (Z.of_nat j)).
  { intros i j Hij. change 1 with (inject_Z 1). rewrite <- inject_Z_plus, <- Zle_Qle. lia. }
  intros i j x y Hij Ei Ej. rewrite linspace_nth in Ei, Ej. fold d w in Ei, Ej.
  destruct (j <? S m)%nat eqn:Hj.
  - apply Nat.ltb_lt in Hj.
    assert (Hi : (i <? S m)%nat = true) by (apply Nat.ltb_lt; lia).
    rewrite Hi in Ei. inversion Ei. inversion Ej. subst.
    pose proof (Hinj i j Hij). nra.
  - destruct (j =? S m)%nat eqn:Hj'; [|discriminate]. apply Nat.eqb_eq in Hj'. subst j.
    assert (Hi : (i <? S m)%nat = true) by (apply Nat.ltb_lt; lia).
    rewrite Hi in Ei. inversion Ei. inversion Ej. subst.
    pose proof (Hinj i (S m) Hij) as H1. fold d in H1. nra.
Qed.

Section Bins.

Context {Sim : Type} `{Gym Sim}.

Lemma cartpole_edges_spec (name : string) (e : MyEnvironment Sim) (bs : list (list Q)) :
  is_cartpole name = true -> MyEnvironment_init name = Ok e -> bins e = Some bs ->
  length bs = 4%nat /\
  forall b, In b bs -> length b = 20%nat /\ ascending b.
Proof.
  intros Hc Ei Hb. destruct (init_cartpole name e Hc Ei) as [_ [_ Hb']].
  rewrite Hb in Hb'. inversion Hb'; subst bs. clear Hb'. split; [reflexivity|].
  intros b Hin.
  assert (Hcases : exists lo hi, lo < hi /\ b = Np.linspace lo hi 20).
  { destruct Hin as [<- | [<- | [<- | [<- | []]]]];
      [exists (-4.8), 4.8 | exists (-4), 4 | exists (-0.418), 0.418 | exists (-4), 4];
      (split; reflexivity). }
  destruct Hcases as [lo [hi [Hlt ->]]].
  split; [apply linspace_length | apply (linspace_ascending lo hi 18 Hlt)].
Qed.

(** X14.  The discretization keeps the order of raw values, and sorts each
    value into the cell it lies in: for consecutive edges [lo], [hi] at
    positions [k] and [k + 1] the index is [k] exactly when
    [lo <= v < hi]. *)
Theorem discretization_cells (name : string) (e : MyEnvironment Sim) (bs : list (list Q)) :
  is_cartpole name = true -> MyEnvironment_init name = Ok e -> bins e = Some bs ->
  forall b, In b bs ->
    (forall v w, v <= w ->
       (Z.of_nat (Np.digitize v b) - 1 <= Z.of_nat (Np.digitize w b) - 1)%Z) /\
    (forall v k lo hi,
       nth_error b k = Some lo -> nth_error b (S k) = Some hi ->
       ((Z.of_nat (Np.digitize v b) - 1)%Z = Z.of_nat k <-> lo <= v /\ v < hi)).
Proof.
  intros Hc Ei Hb b Hin.
  destruct (cartpole_edges_spec name e bs Hc Ei Hb) as [_ Hall].
  destruct (Hall b Hin) as [_ Hasc].
  split.
  - intros v w Hvw. pose proof (digitize_mono b v w Hvw). lia.
  - intros v k lo hi Elo Ehi.
    rewrite <- (digitize_between b v k lo hi Hasc Elo Ehi). lia.
Qed.

End Bins.

(** The values -5 and 0.3 in the first dimension. *)
Lemma discretization_cells_witness :
  -5 <= 0.3 /\
  (Z.of_nat (Np.digitize (-5) (Np.linspace (-4.8) 4.8 20)) - 1
   <= Z.of_nat (Np.digitize 0.3 (Np.linspace (-4.8) 4.8 20)) - 1)%Z.
Proof.
  assert (Hle : -5 <= 0.3) by (vm_compute; discriminate).
  split; [exact Hle|].
  destruct (@discretization_cells nat Examples.one_step_gym "CartPole-v1"
              Examples.cartpole_env _ eq_refl cartpole_init eq_refl
              (Np.linspace (-4.8) 4.8 20)) as [Hmono _]; [left; reflexivity|].
  exact (Hmono (-5) 0.3 Hle).
Defined.

(** ** The stored edges *)

Module Binary64Edges.

Import Floats.
Import Binary64.
#[local] Set Warnings "-inexact-float".
Local Open Scope float_scope.

(** X13.  The edges stored for CartPole, as doubles: each of the four
    dimensions has 20 of them, from its lower bound to its upper bound,
    each edge strictly below the next.  They are evenly spaced up to
    rounding only: every gap between neighbours is within [1e-15] of the
    step, a nineteenth of the span, and in the first dimension no gap
    equals the step and the first two gaps differ. *)
Theorem cartpole_edges_stored :
  map (@length float) bins = [20; 20; 20; 20]%nat /\
  map (fun b => (hd 0 b, last b 0)) bins
    = [(-4.8, 4.8); (-4, 4); (-0.418, 0.418); (-4, 4)] /\
  Forall (adjacent (fun x y => (x <? y) = true)) bins /\
  Forall (fun b =>
            adjacent (fun x y =>
                        (PrimFloat.abs ((y - x) - (last b 0 - hd 0 b) / 19) <? 1e-15) = true) b)
         bins /\
  adjacent (fun x y => y - x <> (4.8 - (-4.8)) / 19) (linspace (-4.8) 4.8 20) /\
  nth 1 (linspace (-4.8) 4.8 20) 0 - nth 0 (linspace (-4.8) 4.8 20) 0
    <> nth 2 (linspace (-4.8) 4.8 20) 0 - nth 1 (linspace (-4.8) 4.8 20) 0.
Proof.
  split; [vm_compute; reflexivity|].
  split; [vm_compute; reflexivity|].
  split; [vm_compute; repeat constructor|].
  split; [vm_compute; repeat constructor|].
  split.
  - vm_compute. repeat split.
    all: intro E;
      match type of E with
      | _ = ?c => apply (f_equal (fun z => PrimFloat.eqb z c)) in E
      end; vm_compute in E; discriminate E.
  - intro E.
    match type of E with
    | _ = ?c => apply (f_equal (fun z => PrimFloat.eqb z c)) in E
    end. vm_compute in E. discriminate E.
Qed.

End Binary64Edges.

(** ** One row per discretized state *)

Lemma norm_index_discretized (d : nat) (i i' : Z) (k : nat) :
  (-1 <= i <= Z.of_nat d - 2)%Z -> (-1 <= i' <= Z.of_nat d - 2)%Z ->
  norm_index d i = Ok k -> norm_index d i' = Ok k -> i = i'.
Proof.
  unfold norm_index. intros Hi Hi' E E'.
  destruct ((0 <=? i) && (i <? Z.of_nat d))%Z eqn:E1;
    destruct ((0 <=? i') && (i' <? Z.of_nat d))%Z eqn:E1'.
  - inversion E. inversion E'. lia.
  - destruct ((- Z.of_nat d <=? i') && (i' <? 0))%Z eqn:E2'; [|discriminate E'].
    apply andb_prop in E1 as [H0 H1]. apply andb_prop in E2' as [H0' H1'].
    apply Z.leb_le in H0. apply Z.ltb_lt in H1'. inversion E. inversion E'. lia.
  - destruct ((- Z.of_nat d <=? i) && (i <? 0))%Z eqn:E2; [|discriminate E].
    apply andb_prop in E1' as [H0 H1]. apply andb_prop in E2 as [H0' H1'].
    apply Z.leb_le in H0. apply Z.ltb_lt in H1'. inversion E. inversion E'. lia.
  - destruct ((- Z.of_nat d <=? i) && (i <? 0))%Z eqn:E2; [|discriminate E].
    destruct ((- Z.of_nat d <=? i') && (i' <? 0))%Z eqn:E2'; [|discriminate E'].
    apply andb_prop in E2 as [_ H1]. apply andb_prop in E2' as [_ H1'].
    apply Z.ltb_lt in H1. apply Z.ltb_lt in H1'. lia.
Qed.

Lemma offset_bound (dims : list nat) (idx : list Z) (rest : list nat) (o : nat) :
  length dims = length idx ->
  offset (dims ++ rest) idx = Ok (o, rest) ->
  (o + size rest <= size (dims ++ rest))%nat.
Proof.
  revert idx o. induction dims as [|d dims IH]; intros [|i idx] o Hlen E;
    try discriminate Hlen.
  - destruct rest; simpl in E; inversion E; simpl; lia.
  - simpl in E.
    destruct (norm_index_cases d i) as [[k [Ek Hk]] | [Ek _]]; rewrite Ek in E;
      cbn [bind] in E; [|discriminate E].
    destruct (offset (dims ++ rest) idx) as [[o1 rest1] | |] eqn:Eo; cbn [bind] in E;
      try discriminate E.
    inversion E; subst. specialize (IH idx o1 ltac:(simpl in Hlen; lia) Eo).
    assert (Hkd : (k < d)%nat).
    { destruct (norm_index_in_range d i Hk) as [k' [Ek' Hk']]. rewrite Ek in Ek'.
      inversion Ek'. subst. exact Hk'. }
    simpl. fold (size (dims ++ rest)). nia.
Qed.

Lemma offset_injective (dims : list nat) (idx idx' : list Z) (rest : list nat)
    (o o' p p' : nat) :
  Forall2 (fun d i => (-1 <= i <= Z.of_nat d - 2)%Z) dims idx ->
  Forall2 (fun d i => (-1 <= i <= Z.of_nat d - 2)%Z) dims idx' ->
  offset (dims ++ rest) idx = Ok (o, rest) ->
  offset (dims ++ rest) idx' = Ok (o', rest) ->
  (p < size rest)%nat -> (p' < size rest)%nat ->
  (o + p = o' + p')%nat ->
  idx = idx' /\ p = p'.
Proof.
  intro H1. revert idx' o o'.
  induction H1 as [|d i dims idx Hi Hrest IH]; intros idx' o o' H2 E E' Hp Hp' Heq;
    inversion H2 as [|d' i' dims' idx2 Hi' Hrest' Ed Ei]; subst.
  - destruct rest; simpl in E, E'; inversion E; inversion E'; subst; simpl in Heq; auto.
  - simpl in E, E'.
    destruct (norm_index d i) as [k | |] eqn:Ek; cbn [bind] in E; try discriminate E.
    destruct (norm_index d i') as [k' | |] eqn:Ek'; cbn [bind] in E'; try discriminate E'.
    destruct (offset (dims ++ rest) idx) as [[o1 r1] | |] eqn:Eo; cbn [bind] in E;
      try discriminate E.
    destruct (offset (dims ++ rest) idx2) as [[o1' r1'] | |] eqn:Eo'; cbn [bind] in E';
      try discriminate E'.
    inversion E; inversion E'; subst.
    pose proof (offset_bound dims idx rest o1 (Forall2_length Hrest) Eo) as Hb.
    pose proof (offset_bound dims idx2 rest o1' (Forall2_length Hrest') Eo') as Hb'.
    set (S := size (dims ++ rest)) in *.
    assert (Hk : k = k' /\ (o1 + p = o1' + p')%nat).
    { destruct (Nat.lt_trichotomy k k') as [Hlt | [Heq' | Hgt]]; [nia | | nia].
      split; [exact Heq' | nia]. }
    destruct Hk as [<- Hop].
    destruct (IH idx2 o1 o1' Hrest' eq_refl Eo' Hp Hp' Hop) as [-> ->].
    rewrite (norm_index_discretized d i i' k Hi Hi' Ek Ek'). auto.
Qed.

(** X15.  Distinct discretized states never share an entry: on the
    CartPole table two (state, action) pairs with state indices in
    [[-1, 19]] that address the same cell are the same pair.  (An index
    and the index 21 above it do share their cells, as -1 and 20 do; the
    discretization never yields 20.) *)
Theorem discretized_states_do_not_alias
    (t : ndarray) (st st' : list Z) (x x' k : nat) :
  shape t = [21; 21; 21; 21; 2]%nat ->
  discretized st -> discretized st' ->
  cell t st x = Ok k -> cell t st' x' = Ok k ->
  (st = st' /\ x = x') /\
  forall rest a, cell t ((-1)%Z :: rest) a = cell t (20%Z :: rest) a.
Proof.
  intros Hs [Hl Hf] [Hl' Hf'] Ec Ec'. split.
  - assert (Hcanon : forall s, length s = 4%nat -> Forall (fun i => (-1 <= i <= 19)%Z) s ->
              Forall2 (fun d i => (-1 <= i <= Z.of_nat d - 2)%Z) [21; 21; 21; 21]%nat s).
    { intros s Hls Hfs.
      destruct s as [|a [|b [|c [|d [|? ?]]]]]; simpl in Hls; try discriminate Hls.
      inversion Hfs as [|? ? Ha Hfs1]; subst. inversion Hfs1 as [|? ? Hb Hfs2]; subst.
      inversion Hfs2 as [|? ? Hc' Hfs3]; subst. inversion Hfs3 as [|? ? Hd _]; subst.
      repeat constructor; lia. }
    unfold cell in Ec, Ec'. rewrite Hs in Ec, Ec'.
    change [21; 21; 21; 21; 2]%nat with ([21; 21; 21; 21] ++ [2])%nat in Ec, Ec'.
    destruct (offset ([21; 21; 21; 21] ++ [2])%nat st) as [[o rest] | |] eqn:Eo;
      cbn [bind] in Ec; try discriminate Ec.
    destruct (offset ([21; 21; 21; 21] ++ [2])%nat st') as [[o' rest'] | |] eqn:Eo';
      cbn [bind] in Ec'; try discriminate Ec'.
    destruct (offset_in_range [21; 21; 21; 21]%nat st [2%nat]) as [o1 [Eo1 _]].
    { eapply Forall2_impl; [|exact (Hcanon st Hl Hf)]. intros d i Hi. simpl in Hi. lia. }
    destruct (offset_in_range [21; 21; 21; 21]%nat st' [2%nat]) as [o1' [Eo1' _]].
    { eapply Forall2_impl; [|exact (Hcanon st' Hl' Hf')]. intros d i Hi. simpl in Hi. lia. }
    rewrite Eo in Eo1. rewrite Eo' in Eo1'. inversion Eo1. inversion Eo1'. subst.
    destruct (x <? 2)%nat eqn:Hx; [|discriminate Ec].
    destruct (x' <? 2)%nat eqn:Hx'; [|discriminate Ec'].
    apply Nat.ltb_lt in Hx. apply Nat.ltb_lt in Hx'.
    inversion Ec. inversion Ec'. subst k.
    apply (offset_injective [21; 21; 21; 21]%nat st st' [2%nat] o1 o1' x x');
      auto; try (rewrite size_single; assumption); lia.
  - intros rest a. unfold cell. rewrite Hs. reflexivity.
Qed.

(** The state (0, 0, -1, 1) with action 1 sits at position 843. *)
Lemma discretized_states_do_not_alias_witness :
  cell {| shape := [21; 21; 21; 21; 2]%nat; data := [] |} [0; 0; -1; 1]%Z 1 = Ok 843%nat /\
  ([0; 0; -1; 1]%Z = [0; 0; -1; 1]%Z /\ 1%nat = 1%nat) /\
  forall rest a,
    cell {| shape := [21; 21; 21; 21; 2]%nat; data := [] |} ((-1)%Z :: rest) a
    = cell {| shape := [21; 21; 21; 21; 2]%nat; data := [] |} (20%Z :: rest) a.
Proof.
  assert (E : cell {| shape := [21; 21; 21; 21; 2]%nat; data := [] |} [0; 0; -1; 1]%Z 1
              = Ok 843%nat) by (vm_compute; reflexivity).
  split; [exact E|].
  apply (discretized_states_do_not_alias _ [0; 0; -1; 1]%Z [0; 0; -1; 1]%Z 1 1 843).
  - reflexivity.
  - split; [reflexivity | repeat constructor; lia].
  - split; [reflexivity | repeat constructor; lia].
  - exact E.
  - exact E.
Defined.

(** ** Which names select the CartPole rules *)

Lemma prefix_append (p s : string) :
  String.prefix p s = true <-> exists post, s = (p ++ post)%string.
Proof.
  revert s. induction p as [|c p IH]; intro s; simpl.
  - split; [intros _; exists s; reflexivity | intros _; destruct s; reflexivity].
  - destruct s as [|c' s]; [split; [discriminate | intros [post E]; discriminate E]|].
    simpl. destruct (Ascii.ascii_dec c c') as [-> | Hne].
    + rewrite IH. split; intros [post E]; exists post; [rewrite E; reflexivity|].
      inversion E. reflexivity.
    + split; [discriminate|]. intros [post E]. inversion E. congruence.
Qed.

Lemma contains_spec (needle hay : string) :
  contains needle hay = true <->
  exists pre post, hay = (pre ++ needle ++ post)%string.
Proof.
  induction hay as [|c hay IH]; cbn [contains].
  - rewrite orb_false_r, prefix_append. split.
    + intros [post E]. exists ""%string, post. exact E.
    + intros [pre [post E]]. destruct pre as [|c pre]; [exists post; exact E | discriminate E].
  - rewrite orb_true_iff, prefix_append, IH. split.
    + intros [[post E] | [pre [post E]]].
      * exists ""%string, post. exact E.
      * exists (String c pre), post. simpl. rewrite E. reflexivity.
    + intros [pre [post E]]. destruct pre as [|c' pre].
      * left. exists post. exact E.
      * right. simpl in E. inversion E. exists pre, post. reflexivity.
Qed.

Section Names.

Context {Sim : Type} `{Gym Sim}.

(** X16.  The adapter applies the CartPole rules (20 edges per dimension,
    two actions) exactly to the names that contain 'CartPole' somewhere,
    and leaves every other name that gym accepts without edges. *)
Theorem cartpole_rules_by_substring (name : string) (e : MyEnvironment Sim) :
  MyEnvironment_init name = Ok e ->
  ((exists pre post, name = (pre ++ "CartPole" ++ post)%string) <->
   n_bins e = Some 20%nat /\ bins e <> None) /\
  ((exists pre post, name = (pre ++ "CartPole" ++ post)%string) ->
   get_action_space_length e = 2%nat) /\
  (~ (exists pre post, name = (pre ++ "CartPole" ++ post)%string) ->
   n_bins e = None /\ bins e = None /\
   get_action_space_length e = gym_action_n (environment e)).
Proof.
  intro Ei. rewrite <- (contains_spec "CartPole" name). fold (is_cartpole name).
  unfold MyEnvironment_init in Ei.
  destruct (gym_make name) as [sim | |]; cbn [bind] in Ei; try discriminate Ei.
  unfold get_action_space_length.
  destruct (is_cartpole name) eqn:Hc; inversion Ei; subst e;
    cbn [n_bins bins environment_name environment]; rewrite Hc.
  - split; [|split].
    + split; [intros _; split; [reflexivity | discriminate] | reflexivity].
    + reflexivity.
    + intro Hn. exfalso. apply Hn. reflexivity.
  - split; [|split].
    + split; [discriminate | intros [Hn _]; discriminate Hn].
    + discriminate.
    + intros _. repeat split.
Qed.

End Names.

Lemma cartpole_rules_by_substring_witness :
  n_bins Examples.cartpole_env = Some 20%nat /\ bins Examples.cartpole_env <> None.
Proof.
  destruct (@cartpole_rules_by_substring nat Examples.one_step_gym "CartPole-v1"
              Examples.cartpole_env cartpole_init) as [Hiff _].
  apply Hiff. exists ""%string, "-v1"%string. reflexivity.
Defined.

(** ** The schedule, continued *)

(** X17.  Every epsilon of the schedule is a probability in
    [[exp(-5), 1]], and the schedule decreases strictly from each episode
    to the next. *)
Theorem epsilon_strictly_decreasing
    (sp na : nat) (shp : list nat) (n : nat) (lr gm : Q) (g : Rng)
    (i j : nat) (ei ej : R) :
  (i < j)%nat ->
  nth_error (epsilon (fst (Agent_init sp na shp n lr gm g))) i = Some ei ->
  nth_error (epsilon (fst (Agent_init sp na shp n lr gm g))) j = Some ej ->
  (exp (-5) <= ej /\ ej < ei /\ ei <= 1)%R.
Proof.
  intros Hij Ei Ej.
  destruct (Agent_init_table sp na shp n lr gm g) as [_ [_ [He _]]].
  rewrite He in Ei, Ej.
  destruct (epsilon_monotone n i j ei ej (Nat.lt_le_incl _ _ Hij) Ei Ej) as [Hlo [_ Hhi]].
  split; [exact Hlo|]. split; [|exact Hhi].
  rewrite epsilon_nth in Ei, Ej.
  destruct (nth_error (Np.linspace 0 1 n) i) as [xi|] eqn:Exi; [|discriminate].
  destruct (nth_error (Np.linspace 0 1 n) j) as [xj|] eqn:Exj; [|discriminate].
  apply some_inj in Ei. apply some_inj in Ej. subst ei ej.
  assert (Hlt : xi < xj).
  { destruct n as [|[|m]].
    - destruct i; discriminate Exi.
    - destruct j as [|[|j]]; try discriminate Exj. lia.
    - pose proof (linspace_ascending 0 1 m ltac:(reflexivity)) as Hasc.
      apply (Hasc i j xi xj Hij Exi Exj). }
  apply exp_increasing. apply Qlt_Rlt. lra.
Qed.

Lemma epsilon_strictly_decreasing_witness :
  exists ei ej,
    nth_error (epsilon (fst (Agent_init 2 2 [21; 21; 21; 21]%nat 3 0.1 0.95 Examples.still))) 0
      = Some ei /\
    nth_error (epsilon (fst (Agent_init 2 2 [21; 21; 21; 21]%nat 3 0.1 0.95 Examples.still))) 2
      = Some ej /\
    (ej < ei)%R.
Proof.
  exists 1%R, (exp (-5)).
  assert (E0 : nth_error (epsilon (fst (Agent_init 2 2 [21; 21; 21; 21]%nat 3 0.1 0.95
                                         Examples.still))) 0 = Some 1%R)
    by (apply (epsilon_first 3); lia).
  assert (E2 : nth_error (epsilon (fst (Agent_init 2 2 [21; 21; 21; 21]%nat 3 0.1 0.95
                                         Examples.still))) 2 = Some (exp (-5)))
    by (apply (epsilon_last 3); lia).
  split; [exact E0|]. split; [exact E2|].
  destruct (epsilon_strictly_decreasing 2 2 [21; 21; 21; 21]%nat 3 0.1 0.95 Examples.still
              0 2 1%R (exp (-5))) as [_ [Hlt _]]; [lia | exact E0 | exact E2 | exact Hlt].
Defined.
